(** * HCI-Furniture: the 3D design canvas (DesignCanvas)

    A shallow embedding of the design canvas component: the colour
    adjustment helper [adjustColorBrightness], the furniture builders
    ([Chair], [Table], ...), the [Room] shell, the view-mode effect of
    [Scene] and its mouse handlers.

    JavaScript numbers are modelled as exact rationals ([Q]); numeric
    equalities are therefore stated with [==].  A property that may be
    absent from a JavaScript object (or hold [undefined]) is an [option]. *)

From Stdlib Require Import String Ascii List ZArith NArith QArith Qround Qminmax Qabs Lia Lqa Bool.
Import ListNotations.

Set Warnings "-register-all".

(** Division by a literal becomes multiplication by its inverse, which
    [lra] accepts. *)
Ltac qconst :=
  unfold Qdiv in *;
  repeat match goal with
  | |- context [Qinv (Qmake ?n ?d)] =>
      let v := eval cbv in (Qinv (Qmake n d)) in
      change (Qinv (Qmake n d)) with v
  | H : context [Qinv (Qmake ?n ?d)] |- _ =>
      let v := eval cbv in (Qinv (Qmake n d)) in
      change (Qinv (Qmake n d)) with v in H
  end.

(* ================================================================== *)
(** ** JavaScript primitives used by the component *)

Module JS.

Open Scope Q_scope.

(** [a || d] on an optional number: [undefined] and [0] are falsy. *)
Definition orNum (a : option Q) (d : Q) : Q :=
  match a with
  | Some v => if Qeq_dec v 0 then d else v
  | None => d
  end.

(** [a || d] on an optional string: [undefined] and the empty string are
    falsy. *)
Definition orStr (a : option string) (d : string) : string :=
  match a with
  | Some EmptyString => d
  | Some v => v
  | None => d
  end.

(** [Math.max] and [Math.min]. *)
Definition Math_max (a b : Q) : Q := if Qlt_le_dec a b then b else a.
Definition Math_min (a b : Q) : Q := if Qlt_le_dec b a then b else a.
Definition Math_max3 (a b c : Q) : Q := Math_max (Math_max a b) c.
Definition Math_min3 (a b c : Q) : Q := Math_min (Math_min a b) c.

(** [Math.round]: the nearest integer, halves going up. *)
Definition Math_round (x : Q) : Z := Qfloor (x + (1 # 2)).

(** [s.startsWith(c)] for a one-character prefix [c]. *)
Definition startsWith (s : string) (c : ascii) : bool :=
  match s with
  | String a _ => Ascii.eqb a c
  | EmptyString => false
  end.

(** [s.slice(1)]. *)
Definition slice1 (s : string) : string :=
  match s with
  | String _ t => t
  | EmptyString => EmptyString
  end.

(** [s.substr(i, n)]. *)
Definition substr (i n : nat) (s : string) : string := substring i n s.

(** Value of a hexadecimal digit, the character class [[0-9A-Fa-f]]. *)
Definition hexValue (c : ascii) : option Z :=
  let n := Z.of_N (N_of_ascii c) in
  if ((48 <=? n) && (n <=? 57))%Z then Some (n - 48)%Z
  else if ((65 <=? n) && (n <=? 70))%Z then Some (n - 55)%Z
  else if ((97 <=? n) && (n <=? 102))%Z then Some (n - 87)%Z
  else None.

Definition isHexDigit (c : ascii) : bool :=
  match hexValue c with Some _ => true | None => false end.

Fixpoint allHex (s : string) : bool :=
  match s with
  | EmptyString => true
  | String c t => isHexDigit c && allHex t
  end.

(** The test [/^[0-9A-Fa-f]{6}$/.test(s)]. *)
Definition testHex6 (s : string) : bool :=
  Nat.eqb (String.length s) 6 && allHex s.

(** [parseInt(s, 16)] on a string without sign, blanks or [0x] prefix:
    the value of the longest prefix of hexadecimal digits, [None] (NaN)
    when there is none. *)
Fixpoint parseHexFrom (acc : Z) (s : string) : Z :=
  match s with
  | EmptyString => acc
  | String c t =>
      match hexValue c with
      | Some v => parseHexFrom (16 * acc + v) t
      | None => acc
      end
  end.

Definition parseInt16 (s : string) : option Z :=
  match s with
  | EmptyString => None
  | String c t =>
      match hexValue c with
      | Some v => Some (parseHexFrom v t)
      | None => None
      end
  end.

(** Lowercase digit of [n.toString(16)]. *)
Definition hexDigit (d : Z) : ascii :=
  if (d <? 10)%Z then ascii_of_N (Z.to_N (48 + d))
  else ascii_of_N (Z.to_N (87 + d)).

Fixpoint toHexDigits (fuel : nat) (n : Z) (acc : string) : string :=
  let acc' := String (hexDigit (n mod 16)) acc in
  match fuel with
  | O => acc'
  | S f => if (n / 16 =? 0)%Z then acc' else toHexDigits f (n / 16) acc'
  end.

(** [n.toString(16)] for an integer [n]. *)
Definition toString16 (n : Z) : string :=
  if (n <? 0)%Z
  then String "-" (toHexDigits (Z.to_nat (Z.log2 (- n))) (- n) EmptyString)
  else toHexDigits (Z.to_nat (Z.log2 n)) n EmptyString.

End JS.

(* ================================================================== *)
(** ** Colour adjustment: [adjustColorBrightness] and [hueToRgb] *)

Module Color.

Import JS.
Open Scope Q_scope.

(** [hueToRgb(p, q, t)]. *)
Definition hueToRgb (p q t : Q) : Q :=
  let t1 := if Qlt_le_dec t 0 then t + 1 else t in
  let t2 := if Qlt_le_dec 1 t1 then t1 - 1 else t1 in
  if Qlt_le_dec t2 (1 / 6) then p + (q - p) * 6 * t2
  else if Qlt_le_dec t2 (1 / 2) then q
  else if Qlt_le_dec t2 (2 / 3) then p + (q - p) * (2 / 3 - t2) * 6
  else p.

(** The RGB to HSL part of [adjustColorBrightness]: the triple
    [(h, s, l)] computed from the three channels in [[0, 1]]. *)
Definition rgbToHsl (r g b : Q) : Q * Q * Q :=
  let max := Math_max3 r g b in
  let min := Math_min3 r g b in
  let l := (max + min) / 2 in
  if Qeq_dec max min then (0, 0, l)
  else
    let d := max - min in
    let s := if Qlt_le_dec (1 / 2) l then d / (2 - max - min)
             else d / (max + min) in
    let h :=
      if Qeq_dec max r then (g - b) / d + (if Qlt_le_dec g b then 6 else 0)
      else if Qeq_dec max g then (b - r) / d + 2
      else if Qeq_dec max b then (r - g) / d + 4
      else 0 in
    (h / 6, s, l).

(** The HSL to RGB part of [adjustColorBrightness]: the three new
    channels, before they are rounded. *)
Definition hslToRgb (h s l : Q) : Q * Q * Q :=
  if Qeq_dec s 0 then (l, l, l)
  else
    let q := if Qlt_le_dec l (1 / 2) then l * (1 + s) else l + s - l * s in
    let p := 2 * l - q in
    (hueToRgb p q (h + 1 / 3), hueToRgb p q h, hueToRgb p q (h - 1 / 3)).

(** The local function [toHex]. *)
Definition toHex (c : Q) : string :=
  let hex := toString16 (Math_round (c * 255)) in
  if Nat.eqb (String.length hex) 1 then String "0" hex else hex.

(** The three channels of a string accepted by the validity test, each
    divided by 255. *)
Definition channels (cleanHex : string) : option (Q * Q * Q) :=
  match parseInt16 (substr 0 2 cleanHex),
        parseInt16 (substr 2 2 cleanHex),
        parseInt16 (substr 4 2 cleanHex) with
  | Some r, Some g, Some b =>
      Some (inject_Z r / 255, inject_Z g / 255, inject_Z b / 255)
  | _, _, _ => None
  end.

(** The new channels computed for a colour and a shade, before [toHex]. *)
Definition newChannels (rgb : Q * Q * Q) (shade : Q) : Q * Q * Q :=
  let '(r, g, b) := rgb in
  let '(h, s, _) := rgbToHsl r g b in
  let l := shade / 100 in
  hslToRgb h s l.

(** [adjustColorBrightness(hexColor, shade)].  A channel that [parseInt]
    cannot read would be NaN and print as [NaN]; the validity test
    excludes it.  The arithmetic is exact here and in doubles in the
    code: where a new channel times 255 is exactly half way between two
    levels, [Math.round] goes up here, and in the code up or down with
    the last bit of the double. *)
Definition adjustColorBrightness (hexColor : string) (shade : Q) : string :=
  let cleanHex := if startsWith hexColor "#" then slice1 hexColor else hexColor in
  if negb (testHex6 cleanHex) then hexColor
  else
    match channels cleanHex with
    | Some rgb =>
        let '(newR, newG, newB) := newChannels rgb shade in
        String "#" (toHex newR ++ toHex newG ++ toHex newB)
    | None => "#NaNNaNNaN"
    end.

(** The three components of [rgbToHsl]. *)
Definition hueOf (r g b : Q) : Q := fst (fst (rgbToHsl r g b)).
Definition satOf (r g b : Q) : Q := snd (fst (rgbToHsl r g b)).
Definition lightOf (r g b : Q) : Q := snd (rgbToHsl r g b).

(** The constants [q] and [p] of the HSL to RGB part. *)
Definition qOf (s l : Q) : Q :=
  if Qlt_le_dec l (1 / 2) then l * (1 + s) else l + s - l * s.
Definition pOf (s l : Q) : Q := 2 * l - qOf s l.

(** What [toHex] prints for the rounded value [n]. *)
Definition printed (n : Z) : string :=
  let hex := toString16 n in
  if Nat.eqb (String.length hex) 1 then String "0" hex else hex.

End Color.

(* ================================================================== *)
(** ** The objects handed to the renderer *)

Module Three.

Open Scope Q_scope.

Definition Vec3 : Type := (Q * Q * Q)%type.

Definition vx (v : Vec3) : Q := fst (fst v).
Definition vy (v : Vec3) : Q := snd (fst v).
Definition vz (v : Vec3) : Q := snd v.

Definition origin3 : Vec3 := (0, 0, 0).

(** The [args] of the geometry elements. *)
Inductive Geometry : Type :=
| planeGeometry (width height : Q)
| boxGeometry (width height depth : Q)
| cylinderGeometry (radiusTop radiusBottom height : Q) (radialSegments : nat)
| coneGeometry (radius height : Q) (radialSegments : nat)
| sphereGeometry (radius : Q) (widthSegments heightSegments : nat).

(** The attributes of [meshStandardMaterial]. *)
Record Material : Type := mkMaterial {
  map : option string;
  color : string;
  roughness : option Q;
  metalness : option Q;
  emissive : option string;
  emissiveIntensity : option Q
}.

(** Euler angles are kept as rational multiples of [Math.PI]:
    [-Math.PI / 2] is [-(1 / 2)]. *)
Definition Euler : Type := (Q * Q * Q)%type.

(** A rendered object: a [mesh], or a [group] with its [userData.id]
    (absent unless the element sets it), position, scale and children. *)
Inductive Object3D : Type :=
| mesh (position : Vec3) (rotation : Euler) (geometry : Geometry)
       (material : Material) (castShadow receiveShadow : bool)
| group (userData_id : option string) (position : Vec3) (scale : Q)
        (children : list Object3D).

Definition childrenOf (o : Object3D) : list Object3D :=
  match o with
  | mesh _ _ _ _ _ _ => []
  | group _ _ _ c => c
  end.

End Three.

(* ================================================================== *)
(** ** Furniture builders *)

Module Furniture.

Import JS Color Three.
Open Scope Q_scope.
Open Scope string_scope.

(** A furniture descriptor, as the builders and [Scene] read it. *)
Record Item : Type := mkItem {
  id : string;
  type : string;
  x : option Q;
  z : option Q;
  scale : option Q;
  color : option string;
  shade : option Q
}.

Definition textured (texture col : string) (rough : Q) : Material :=
  mkMaterial (Some texture) col (Some rough) None None None.

(** A mesh with [castShadow] and [receiveShadow], as every textured part
    of a piece of furniture is. *)
Definition part (position : Vec3) (g : Geometry) (m : Material) : Object3D :=
  mesh position (0, 0, 0) g m true true.

Definition Chair (item : Item) (roomHeight : Q) : Object3D :=
  let woodTexture := "/textures/wood_025_diff_1k.jpg" in
  let scale := orNum item.(scale) 1 in
  let color := adjustColorBrightness (orStr item.(color) "#8B4513")
                                     (orNum item.(shade) 50) in
  let m := textured woodTexture color 0.7 in
  group None (orNum item.(x) 0, - roomHeight / 2, orNum item.(z) 0) scale
    [ part (0, 0.5, 0) (boxGeometry 1 0.1 1) m;
      part (0, 1.2, -0.4) (boxGeometry 1 0.8 0.1) m;
      part (-0.4, 0.25, -0.4) (cylinderGeometry 0.05 0.05 0.5 16) m;
      part (-0.4, 0.25, 0.4) (cylinderGeometry 0.05 0.05 0.5 16) m;
      part (0.4, 0.25, -0.4) (cylinderGeometry 0.05 0.05 0.5 16) m;
      part (0.4, 0.25, 0.4) (cylinderGeometry 0.05 0.05 0.5 16) m ].

Definition Table (item : Item) (roomHeight : Q) : Object3D :=
  let woodTexture := "/textures/wood_025_diff_1k.jpg" in
  let scale := orNum item.(scale) 1 in
  let color := adjustColorBrightness (orStr item.(color) "#8B4513")
                                     (orNum item.(shade) 50) in
  let m := textured woodTexture color 0.7 in
  group None (orNum item.(x) 0, - roomHeight / 2, orNum item.(z) 0) scale
    [ part (0, 0.8, 0) (boxGeometry 2 0.2 1.5) m;
      part (-0.9, 0.4, -0.65) (cylinderGeometry 0.05 0.05 0.8 16) m;
      part (-0.9, 0.4, 0.65) (cylinderGeometry 0.05 0.05 0.8 16) m;
      part (0.9, 0.4, -0.65) (cylinderGeometry 0.05 0.05 0.8 16) m;
      part (0.9, 0.4, 0.65) (cylinderGeometry 0.05 0.05 0.8 16) m ].

Definition Sofa (item : Item) (roomHeight : Q) : Object3D :=
  let fabricTexture := "/textures/fabric_001_diff_1k.jpg" in
  let scale := orNum item.(scale) 1 in
  let color := adjustColorBrightness (orStr item.(color) "#4B0082")
                                     (orNum item.(shade) 30) in
  let m := textured fabricTexture color 0.8 in
  group None (orNum item.(x) 0, - roomHeight / 2, orNum item.(z) 0) scale
    [ part (0, 0.5, 0) (boxGeometry 3 0.5 1) m;
      part (0, 1, -0.4) (boxGeometry 3 1 0.2) m;
      part (-1.3, 0.75, 0) (boxGeometry 0.4 0.5 1) m;
      part (1.3, 0.75, 0) (boxGeometry 0.4 0.5 1) m ].

Definition Bookshelf (item : Item) (roomHeight : Q) : Object3D :=
  let woodTexture := "/textures/wood_025_diff_1k.jpg" in
  let scale := orNum item.(scale) 1 in
  let color := adjustColorBrightness (orStr item.(color) "#8B4513")
                                     (orNum item.(shade) 50) in
  let m := textured woodTexture color 0.7 in
  group None (orNum item.(x) 0, - roomHeight / 2, orNum item.(z) 0) scale
    [ part (0, 1, 0) (boxGeometry 2 2 0.5) m;
      part (0, 0.5, 0) (boxGeometry 2 0.1 0.5) m;
      part (0, 1.5, 0) (boxGeometry 2 0.1 0.5) m ].

Definition TVStand (item : Item) (roomHeight : Q) : Object3D :=
  let woodTexture := "/textures/wood_025_diff_1k.jpg" in
  let scale := orNum item.(scale) 1 in
  let color := adjustColorBrightness (orStr item.(color) "#2F4F4F")
                                     (orNum item.(shade) 50) in
  let m := textured woodTexture color 0.7 in
  group None (orNum item.(x) 0, - roomHeight / 2, orNum item.(z) 0) scale
    [ part (0, 0.5, 0) (boxGeometry 3 0.8 0.8) m;
      part (0, 0.2, 0) (boxGeometry 3 0.1 0.8) m ].

Definition Bed (item : Item) (roomHeight : Q) : Object3D :=
  let fabricTexture := "/textures/fabric_001_diff_1k.jpg" in
  let scale := orNum item.(scale) 1 in
  let color := adjustColorBrightness (orStr item.(color) "#4682B4")
                                     (orNum item.(shade) 30) in
  let m := textured fabricTexture color 0.8 in
  group None (orNum item.(x) 0, - roomHeight / 2, orNum item.(z) 0) scale
    [ part (0, 0.4, 0) (boxGeometry 2.5 0.4 4) m;
      part (0, 0.8, -1.8) (boxGeometry 2.5 0.6 0.4) m;
      part (-1.1, 0.2, -1.8) (cylinderGeometry 0.1 0.1 0.4 16) m;
      part (1.1, 0.2, -1.8) (cylinderGeometry 0.1 0.1 0.4 16) m;
      part (-1.1, 0.2, 1.8) (cylinderGeometry 0.1 0.1 0.4 16) m;
      part (1.1, 0.2, 1.8) (cylinderGeometry 0.1 0.1 0.4 16) m ].

Definition Lamp (item : Item) (roomHeight : Q) : Object3D :=
  let metalTexture := "/textures/metal_001_diff_1k.jpg" in
  let scale := orNum item.(scale) 1 in
  let color := adjustColorBrightness (orStr item.(color) "#FFD700")
                                     (orNum item.(shade) 70) in
  let m := mkMaterial (Some metalTexture) color (Some 0.6) (Some 0.8) None None in
  group None (orNum item.(x) 0, - roomHeight / 2, orNum item.(z) 0) scale
    [ part (0, 0.5, 0) (cylinderGeometry 0.2 0.2 1 16) m;
      part (0, 1.2, 0) (coneGeometry 0.4 0.6 16) m;
      mesh (0, 1.5, 0) (0, 0, 0) (sphereGeometry 0.2 16 16)
           (mkMaterial None "#ffffe0" None None (Some "#ffffe0") (Some 0.8))
           true false ].

(** [cond && <element/>] as a child: the element, or nothing. *)
Definition andThen (cond : bool) (o : Object3D) : list Object3D :=
  if cond then [o] else [].

(** One entry of [furniture.map(...)] in the render of [Scene]: the group
    tagged with the item's id, holding whatever the type selects.  Here,
    as in the builders, [roomHeight] is a number.  [Scene] passes
    [room.height] as it is: for a room without height the builders
    compute with [undefined], which [Extent.groupY] accounts for. *)
Definition furnitureGroup (roomHeight : Q) (item : Item) : Object3D :=
  group (Some item.(id)) (0, 0, 0) 1
    (andThen (item.(type) =? "chair") (Chair item roomHeight)
     ++ andThen (item.(type) =? "table") (Table item roomHeight)
     ++ andThen (item.(type) =? "sofa") (Sofa item roomHeight)
     ++ andThen (item.(type) =? "bookshelf") (Bookshelf item roomHeight)
     ++ andThen (item.(type) =? "tvstand") (TVStand item roomHeight)
     ++ andThen (item.(type) =? "bed") (Bed item roomHeight)
     ++ andThen (item.(type) =? "lamp") (Lamp item roomHeight)).

Definition furnitureGroups (roomHeight : Q) (furniture : list Item)
  : list Object3D :=
  List.map (furnitureGroup roomHeight) furniture.

End Furniture.

(* ================================================================== *)
(** ** The room shell: [Room] *)

Module RoomShell.

Import JS Three.
Open Scope Q_scope.
Open Scope string_scope.

Record RoomSpec : Type := mkRoom {
  width : option Q;
  height : option Q;
  depth : option Q;
  color : option string;
  wallTexture : option string
}.

Definition surface (position : Vec3) (rotation : Euler) (g : Geometry)
  (texture col : string) (rough : Q) : Object3D :=
  mesh position rotation g
       (mkMaterial (Some texture) col (Some rough) None None None)
       false true.

(** The six surfaces, in the order of the source: floor, ceiling, back,
    front, left and right wall. *)
Definition Room (room : RoomSpec) : Object3D :=
  let wallTexture :=
    "/textures/" ++ orStr room.(wallTexture) "patterned_concrete_wall_diff_1k.jpg" in
  let floorTexture := "/textures/wooden_floor_02_diff_1k.jpg" in
  let ceilingTexture := "/textures/ceiling_tile_diff_1k.jpg" in
  let width := orNum room.(width) 10 in
  let height := orNum room.(height) 5 in
  let depth := orNum room.(depth) 10 in
  let wallColor := orStr room.(color) "#f0f0f0" in
  group None (0, 0, 0) 1
    [ surface (0, - height / 2, 0) (- (1 / 2), 0, 0) (planeGeometry width depth)
              floorTexture wallColor 0.6;
      surface (0, height / 2, 0) (1 / 2, 0, 0) (planeGeometry width depth)
              ceilingTexture wallColor 0.4;
      surface (0, 0, - depth / 2) (0, 0, 0) (planeGeometry width height)
              wallTexture wallColor 0.5;
      surface (0, 0, depth / 2) (0, 1, 0) (planeGeometry width height)
              wallTexture wallColor 0.5;
      surface (- width / 2, 0, 0) (0, 1 / 2, 0) (planeGeometry depth height)
              wallTexture wallColor 0.5;
      surface (width / 2, 0, 0) (0, - (1 / 2), 0) (planeGeometry depth height)
              wallTexture wallColor 0.5 ].

End RoomShell.

(* ================================================================== *)
(** ** [Scene]: camera, view mode and mouse handlers *)

Module Scene.

Import JS Three Furniture.
Open Scope Q_scope.
Open Scope string_scope.

(** *** The parts of three.js the handlers call *)

Definition dot (a b : Vec3) : Q := vx a * vx b + vy a * vy b + vz a * vz b.

(** [THREE.Plane(normal, constant)]: the points [p] with
    [normal . p + constant = 0]. *)
Record Plane : Type := mkPlane { normal : Vec3; constant : Q }.

(** [THREE.Ray]: the points [origin + t * direction], [t >= 0]. *)
Record Ray : Type := mkRay { origin : Vec3; direction : Vec3 }.

(** [plane.distanceToPoint(point)]. *)
Definition distanceToPoint (pl : Plane) (point : Vec3) : Q :=
  dot pl.(normal) point + pl.(constant).

(** [ray.distanceToPlane(plane)]; [None] is [null]. *)
Definition distanceToPlane (ray : Ray) (pl : Plane) : option Q :=
  let denominator := dot pl.(normal) ray.(direction) in
  if Qeq_dec denominator 0 then
    if Qeq_dec (distanceToPoint pl ray.(origin)) 0 then Some 0 else None
  else
    let t := - (dot ray.(origin) pl.(normal) + pl.(constant)) / denominator in
    if Qlt_le_dec t 0 then None else Some t.

(** [ray.intersectPlane(plane, target)]. *)
Definition intersectPlane (ray : Ray) (pl : Plane) : option Vec3 :=
  match distanceToPlane ray pl with
  | None => None
  | Some t =>
      Some (vx ray.(origin) + vx ray.(direction) * t,
            vy ray.(origin) + vy ray.(direction) * t,
            vz ray.(origin) + vz ray.(direction) * t)
  end.

(** An entry of the array returned by [raycaster.intersectObjects]: the
    distance from the ray origin and the object hit, named by its path
    of child indices from the list of objects tested.  The array comes
    sorted by increasing distance. *)
Record Intersection : Type := mkIntersection {
  distance : Q;
  object : list nat
}.

Fixpoint objectAt (objs : list Object3D) (path : list nat) : option Object3D :=
  match path with
  | [] => None
  | i :: rest =>
      match nth_error objs i with
      | None => None
      | Some o =>
          match rest with
          | [] => Some o
          | _ :: _ => objectAt (childrenOf o) rest
          end
      end
  end.

Definition userData_id (o : Object3D) : option string :=
  match o with
  | mesh _ _ _ _ _ _ => None
  | group i _ _ _ => i
  end.

(** [object.parent.userData.id] for the object at [path]; the parent of
    a tested object itself is the scene, which carries no id. *)
Definition parent_userData_id (objs : list Object3D) (path : list nat)
  : option string :=
  match objectAt objs (removelast path) with
  | Some parent => userData_id parent
  | None => None
  end.

(** [item.id === v], where [v] may be [undefined]. *)
Definition strictEq (a : string) (v : option string) : bool :=
  match v with
  | Some b => a =? b
  | None => false
  end.

(** [array.findIndex(pred)]; [None] is [-1]. *)
Fixpoint findIndex {A : Type} (pred : A -> bool) (l : list A) : option nat :=
  match l with
  | [] => None
  | a :: t => if pred a then Some O else option_map S (findIndex pred t)
  end.

(** *** Props of [Scene] that stay fixed while the handlers run *)

Section Handlers.

Variable roomHeight : Q.
Variable furniture : list Item.

(** The plane created on the first render. *)
Definition plane : Plane := mkPlane (0, 1, 0) (- roomHeight / 2).

(** A call [onUpdateFurniture(index, { x, z })]. *)
Record Update : Type := mkUpdate { index : nat; x : Q; z : Q }.

(** [handleMouseDown]: the new value of [selected], given the groups
    tested and the array [intersects] the raycaster returned. *)
Definition handleMouseDown (objects : list Object3D)
  (intersects : list Intersection) (selected : option nat) : option nat :=
  match intersects with
  | hit :: _ =>
      match findIndex
              (fun item => strictEq item.(id)
                             (parent_userData_id objects hit.(object)))
              furniture with
      | Some i => Some i
      | None => selected
      end
  | [] => None
  end.

(** [handleMouseMove]: the calls made to [onUpdateFurniture], given the
    ray set from the camera and the pointer. *)
Definition handleMouseMove (selected : option nat) (ray : Ray) : list Update :=
  match selected with
  | None => []
  | Some i =>
      match intersectPlane ray plane with
      | Some point => [mkUpdate i (vx point) (vz point)]
      | None => []
      end
  end.

(** [handleMouseUp]. *)
Definition handleMouseUp (selected : option nat) : option nat := None.

(** The three listeners as one transition on [selected]: an event is
    what the raycaster produced for it. *)
Inductive Event : Type :=
| mousedown (intersects : list Intersection)
| mousemove (ray : Ray)
| mouseup.

Definition step (objects : list Object3D) (selected : option nat) (e : Event)
  : option nat * list Update :=
  match e with
  | mousedown intersects => (handleMouseDown objects intersects selected, [])
  | mousemove ray => (selected, handleMouseMove selected ray)
  | mouseup => (handleMouseUp selected, [])
  end.

(** The events handled in order of arrival: the final selection and all
    the calls made. *)
Fixpoint run (objects : list Object3D) (selected : option nat)
  (events : list Event) : option nat * list Update :=
  match events with
  | [] => (selected, [])
  | e :: rest =>
      let '(selected', calls) := step objects selected e in
      let '(final, calls') := run objects selected' rest in
      (final, (calls ++ calls')%list)
  end.

End Handlers.

(** *** View mode *)

(** The camera: its position and the point last passed to [lookAt],
    which with the position fixes its orientation. *)
Record Camera : Type := mkCamera { position : Vec3; lookAt : Vec3 }.

(** The gesture switches of [OrbitControls]. *)
Record Controls : Type := mkControls {
  enableRotate : bool;
  enableZoom : bool;
  enablePan : bool
}.

(** What the view-mode effect writes: the camera and, when
    [controlsRef.current] is set, the controls. *)
Record View : Type := mkView { camera : Camera; controls : option Controls }.

Section ViewMode.

(** [OrbitControls.update()] belongs to the library.  It reads the
    camera and what the controls hold besides the three switches
    (target, angle and distance limits, pending gesture deltas), and
    writes both: it computes the position of the camera again from its
    spherical coordinates about the target, with the polar angle kept
    clear of the poles, and turns it to the target.  It is left open
    here: [Orbit] is what the controls hold, [update] the method. *)
Variable Orbit : Type.
Variable update : Orbit -> Camera -> Orbit * Camera.

(** The effect run when [viewMode] (or the camera) changes, on the view
    and what the controls hold. *)
Definition viewModeEffect (viewMode : string) (v : View) (o : Orbit) : View * Orbit :=
  if viewMode =? "2D" then
    let cam := mkCamera (0, 10, 0) (0, 0, 0) in
    match v.(controls) with
    | Some _ =>
        let (o', cam') := update o cam in
        (mkView cam' (Some (mkControls false true true)), o')
    | None => (mkView cam None, o)
    end
  else
    let cam := mkCamera (10, 10, 10) (0, 0, 0) in
    match v.(controls) with
    | Some _ =>
        let (o', cam') := update o cam in
        (mkView cam' (Some (mkControls true true true)), o')
    | None => (mkView cam None, o)
    end.

End ViewMode.

Arguments viewModeEffect {Orbit} update viewMode v o.

(** The attributes given to [OrbitControls] by the render. *)
Definition orbitControls (viewMode : string) : Controls :=
  mkControls (viewMode =? "3D") true true.

(** The constant [zoom] of the render. *)
Definition zoom (width depth : Q) : Q := Math_max width depth * 1.5.

(** The attributes given to [OrthographicCamera] in the 2D view. *)
Record Orthographic : Type := mkOrthographic {
  ortho_position : Vec3;
  ortho_zoom : Q;
  left : Q;
  right : Q;
  top : Q;
  bottom : Q;
  near : Q;
  far : Q
}.

Definition orthographicCamera (width depth : Q) : Orthographic :=
  let zoom := zoom width depth in
  mkOrthographic (0, 10, 0) 50 (- zoom) zoom zoom (- zoom) 0.1 100.

End Scene.

(* ================================================================== *)
(** ** Notions of the specification *)

Module Spec.

Import JS Color Three.
Open Scope Q_scope.
Open Scope string_scope.

(** The characters allowed in a colour. *)
Definition hexChars : list ascii :=
  list_ascii_of_string "0123456789ABCDEFabcdef".

Fixpoint all_in (l : list ascii) (s : string) : Prop :=
  match s with
  | EmptyString => True
  | String c t => In c l /\ all_in l t
  end.

(** The canonical form of a colour: six hexadecimal digits, with an
    optional leading [#]. *)
Definition canonicalHex (s : string) : Prop :=
  exists body,
    (s = body \/ s = String "#" body)
    /\ String.length body = 6%nat /\ all_in hexChars body.

Definition channelValue (c1 c2 : ascii) : option Z :=
  match hexValue c1, hexValue c2 with
  | Some a, Some b => Some (16 * a + b)%Z
  | _, _ => None
  end.

Definition bodyValue (body : string) : option (Z * Z * Z) :=
  match body with
  | String r1 (String r2 (String g1 (String g2 (String b1 (String b2 EmptyString))))) =>
      match channelValue r1 r2, channelValue g1 g2, channelValue b1 b2 with
      | Some r, Some g, Some b => Some (r, g, b)
      | _, _, _ => None
      end
  | _ => None
  end.

(** The 24-bit RGB value a canonical string denotes, [None] for any
    other string. *)
Definition colorValue (s : string) : option (Z * Z * Z) :=
  match s with
  | String "#" body => bodyValue body
  | _ => bodyValue s
  end.

(** A channel serialized as two lowercase hexadecimal digits. *)
Definition lowerDigits : list ascii := list_ascii_of_string "0123456789abcdef".

Definition hex2 (n : Z) : string :=
  String (nth (Z.to_nat (n / 16)) lowerDigits "?"%char)
    (String (nth (Z.to_nat (n mod 16)) lowerDigits "?"%char) EmptyString).

(** The primitive solids a composition is made of. *)
Inductive Solid : Type := prism | cylinder | cone | sphere.

Definition solidOf (o : Object3D) : option Solid :=
  match o with
  | mesh _ _ (boxGeometry _ _ _) _ _ _ => Some prism
  | mesh _ _ (cylinderGeometry _ _ _ _) _ _ _ => Some cylinder
  | mesh _ _ (coneGeometry _ _ _) _ _ _ => Some cone
  | mesh _ _ (sphereGeometry _ _ _) _ _ _ => Some sphere
  | _ => None
  end.

(** The seven variants: the type tag as [Scene] spells it, the builder,
    the default shade and the parts in order.
    chair: seat, backrest, four legs; table: top, four legs; sofa: seat,
    backrest, two armrests; bookshelf: back panel, two shelf caps;
    TV stand: body, plinth; bed: mattress, headboard, four legs;
    lamp: stand, shade cone, bulb. *)
Definition registry
  : list (string * (Furniture.Item -> Q -> Object3D) * Q * list Solid) :=
  [ ("chair", Furniture.Chair, 50,
       [prism; prism; cylinder; cylinder; cylinder; cylinder]);
    ("table", Furniture.Table, 50,
       [prism; cylinder; cylinder; cylinder; cylinder]);
    ("sofa", Furniture.Sofa, 30, [prism; prism; prism; prism]);
    ("bookshelf", Furniture.Bookshelf, 50, [prism; prism; prism]);
    ("tvstand", Furniture.TVStand, 50, [prism; prism]);
    ("bed", Furniture.Bed, 30,
       [prism; prism; cylinder; cylinder; cylinder; cylinder]);
    ("lamp", Furniture.Lamp, 70, [cylinder; cone; sphere]) ].

Definition tags : list string := List.map (fun e => fst (fst (fst e))) registry.

(** Descriptors that differ in one field only. *)
Definition withShade (item : Furniture.Item) (v : option Q) : Furniture.Item :=
  Furniture.mkItem item.(Furniture.id) item.(Furniture.type)
    item.(Furniture.x) item.(Furniture.z) item.(Furniture.scale)
    item.(Furniture.color) v.

Definition withScale (item : Furniture.Item) (v : option Q) : Furniture.Item :=
  Furniture.mkItem item.(Furniture.id) item.(Furniture.type)
    item.(Furniture.x) item.(Furniture.z) v
    item.(Furniture.color) item.(Furniture.shade).

(** Sine and cosine of [a * Math.PI] when [a] is a multiple of one half. *)
Definition quarterTurns (a : Q) : option Z :=
  let t := Qred (a * 2) in
  if Pos.eqb (Qden t) 1 then Some (Qnum t mod 4)%Z else None.

Definition sinPi (a : Q) : option Q :=
  match quarterTurns a with
  | Some 0%Z => Some 0
  | Some 1%Z => Some 1
  | Some 2%Z => Some 0
  | Some 3%Z => Some (-1)
  | _ => None
  end.

Definition cosPi (a : Q) : option Q :=
  match quarterTurns a with
  | Some 0%Z => Some 1
  | Some 1%Z => Some 0
  | Some 2%Z => Some (-1)
  | Some 3%Z => Some 0
  | _ => None
  end.

(** The direction the front of a [planeGeometry] faces: the image of its
    normal [(0, 0, 1)] under the rotation with Euler angles [(rx, ry, rz)]
    taken in the order XYZ, for angles that are multiples of a quarter
    turn. *)
Definition facing (rotation : Euler) : option Vec3 :=
  let '(rx, ry, _) := rotation in
  match sinPi rx, cosPi rx, sinPi ry, cosPi ry with
  | Some sx, Some cx, Some sy, Some cy => Some (sy, - (cy * sx), cy * cx)
  | _, _, _, _ => None
  end.

Definition up : Vec3 := (0, 1, 0).
Definition down : Vec3 := (0, -1, 0).

(** The point where a ray meets the floor plane [y = -height / 2], if
    it does. *)
Definition floorHit (height : Q) (ray : Scene.Ray) : option Vec3 :=
  let o := ray.(Scene.origin) in
  let d := ray.(Scene.direction) in
  if Qeq_dec (vy d) 0 then None
  else
    let t := (- (height / 2) - vy o) / vy d in
    if Qlt_le_dec t 0 then None
    else Some (vx o + vx d * t, - (height / 2), vz o + vz d * t).

Definition isMesh (o : Object3D) : bool :=
  match o with
  | mesh _ _ _ _ _ _ => true
  | group _ _ _ _ => false
  end.

Definition positionOf (o : Object3D) : Vec3 :=
  match o with
  | mesh p _ _ _ _ _ => p
  | group _ p _ _ => p
  end.

Definition facingOf (o : Object3D) : option Vec3 :=
  match o with
  | mesh _ r (planeGeometry _ _) _ _ _ => facing r
  | _ => None
  end.

(** The channels computed from [p], [q] and the hue [h] have maximum
    [q], minimum [p] and hue [h]. *)
Definition hueRoundTrip (p q h : Q) : Prop :=
  Math_max3 (hueToRgb p q (h + 1 / 3)) (hueToRgb p q h) (hueToRgb p q (h - 1 / 3)) == q
  /\ Math_min3 (hueToRgb p q (h + 1 / 3)) (hueToRgb p q h) (hueToRgb p q (h - 1 / 3)) == p
  /\ hueOf (hueToRgb p q (h + 1 / 3)) (hueToRgb p q h) (hueToRgb p q (h - 1 / 3)) == h.

(** A channel between 0 and 1. *)
Definition unit_interval (c : Q) : Prop := 0 <= c /\ c <= 1.

(** The values of a channel. *)
Definition bytes : list Z := List.map Z.of_nat (seq 0 256).

(** [n] is [x] rounded to the nearest integer. *)
Definition nearest (x : Q) (n : Z) : Prop :=
  inject_Z n - 1 / 2 <= x /\ x <= inject_Z n + 1 / 2.

(** The HSL coordinates of a colour with channels in [[0, 1]], as they
    are defined: with [M] the largest channel, [m] the smallest and the
    chroma [C = M - m], the lightness is [L = (M + m) / 2], the
    saturation [C / (1 - |2 L - 1|)], or 0 for black and white, and the
    hue, in turns, a sixth of [(G - B) / C mod 6], [(B - R) / C + 2] or
    [(R - G) / C + 4], by the largest channel, or 0 for a grey. *)
Definition largest (r g b : Q) : Q := Qmax r (Qmax g b).
Definition smallest (r g b : Q) : Q := Qmin r (Qmin g b).
Definition chroma (r g b : Q) : Q := largest r g b - smallest r g b.

Definition lightness (r g b : Q) : Q := (largest r g b + smallest r g b) / 2.

Definition saturation (r g b : Q) : Q :=
  let L := lightness r g b in
  if Qeq_dec L 0 then 0
  else if Qeq_dec L 1 then 0
  else chroma r g b / (1 - Qabs (2 * L - 1)).

Definition mod6 (x : Q) : Q := x - 6 * inject_Z (Qfloor (x / 6)).

Definition hue (r g b : Q) : Q :=
  let C := chroma r g b in
  if Qeq_dec C 0 then 0
  else if Qeq_dec (largest r g b) r then mod6 ((g - b) / C) / 6
  else if Qeq_dec (largest r g b) g then ((b - r) / C + 2) / 6
  else ((r - g) / C + 4) / 6.

(** An event the rendered furniture can produce: the nearest hit of a
    pointer-down, if any, is one of its meshes. *)
Definition wellFormed (objects : list Object3D) (e : Scene.Event) : Prop :=
  match e with
  | Scene.mousedown (hit :: _) =>
      exists o, Scene.objectAt objects hit.(Scene.object) = Some o /\ isMesh o = true
  | _ => True
  end.

(** Switching to the top-down view and back to the free view. *)
Definition roundTrip {Orbit : Type} (update : Orbit -> Scene.Camera -> Orbit * Scene.Camera)
    (v : Scene.View) (o : Orbit) : Scene.View * Orbit :=
  let (v', o') := Scene.viewModeEffect update "2D" v o in
  Scene.viewModeEffect update "3D" v' o'.

(** A free view, whose controls have the three gestures enabled, with
    the camera at [p] looking at the origin. *)
Definition freeView (p : Vec3) : Scene.View :=
  Scene.mkView (Scene.mkCamera p (0, 0, 0)) (Some (Scene.mkControls true true true)).

End Spec.

(* ================================================================== *)
(** ** Extents, shapes and materials of rendered objects *)

Module Extent.

Import JS Three.
Open Scope Q_scope.

(** Half of the vertical size of an unrotated geometry: three.js centres
    boxes, cylinders, cones and spheres on their origin. *)
Definition halfHeight (g : Geometry) : Q :=
  match g with
  | planeGeometry _ h => h / 2
  | boxGeometry _ h _ => h / 2
  | cylinderGeometry _ _ h _ => h / 2
  | coneGeometry _ h _ => h / 2
  | sphereGeometry r _ _ => r
  end.

(** The height of the lowest point of an object, in the frame of its
    parent. *)
Definition lowest (o : Object3D) : Q :=
  match o with
  | mesh p _ g _ _ _ => vy p - halfHeight g
  | group _ p _ _ => vy p
  end.

(** The height, in the frame of the scene, of the lowest point of a
    child [m] of the group [g], which places its children at its
    position scaled by its scale. *)
Definition worldLowest (g m : Object3D) : Q :=
  match g with
  | group _ p s _ => vy p + s * lowest m
  | mesh _ _ _ _ _ _ => lowest m
  end.

Definition scaleOf (o : Object3D) : Q :=
  match o with
  | group _ _ s _ => s
  | mesh _ _ _ _ _ _ => 1
  end.

Definition materialOf (o : Object3D) : option Material :=
  match o with
  | mesh _ _ _ m _ _ => Some m
  | group _ _ _ _ => None
  end.

(** An object without its materials. *)
Inductive Shape : Type :=
| meshShape (position : Vec3) (rotation : Euler) (geometry : Geometry)
| groupShape (position : Vec3) (scale : Q) (children : list Shape).

Fixpoint shapeOf (o : Object3D) : Shape :=
  match o with
  | mesh p r g _ _ _ => meshShape p r g
  | group _ p s c => groupShape p s (List.map shapeOf c)
  end.

(** The material of the lamp's bulb. *)
Definition bulbMaterial : Material :=
  mkMaterial None "#ffffe0" None None (Some "#ffffe0"%string) (Some 0.8).

(** The default colour of each type of furniture. *)
Definition defaultColor : list (string * string) :=
  [ ("chair", "#8B4513"); ("table", "#8B4513"); ("sofa", "#4B0082");
    ("bookshelf", "#8B4513"); ("tvstand", "#2F4F4F"); ("bed", "#4682B4");
    ("lamp", "#FFD700") ]%string.

(** A descriptor with another colour. *)
Definition withColor (item : Furniture.Item) (c : option string) : Furniture.Item :=
  Furniture.mkItem item.(Furniture.id) item.(Furniture.type)
    item.(Furniture.x) item.(Furniture.z) item.(Furniture.scale)
    c item.(Furniture.shade).

(** The height of the lowest point of a composition above the origin of
    its group. *)
Definition clearance (o : Object3D) : Q :=
  match childrenOf o with
  | [] => 0
  | m :: rest => fold_left (fun a c => Math_min a (lowest c)) rest (lowest m)
  end.

(** The clearance of each type of furniture. *)
Definition floorClearance : list (string * Q) :=
  [ ("chair"%string, 0); ("table"%string, 0); ("sofa"%string, 0.25);
    ("bookshelf"%string, 0); ("tvstand"%string, 0.1); ("bed"%string, 0);
    ("lamp"%string, 0) ].

(** A number that is missing or not negative. *)
Definition notNegative (o : option Q) : Prop :=
  match o with
  | Some v => 0 <= v
  | None => True
  end.

(** The height [-roomHeight / 2] of a builder's group under [Scene],
    which gives the builder [roomHeight={room.height}], the height of
    the room as it is: for a room without height the builder computes
    with [undefined] and the height of its group is NaN, here [None]. *)
Definition groupY (room : RoomShell.RoomSpec) : option Q :=
  option_map (fun h => - h / 2) room.(RoomShell.height).

(** Rooms that differ in one dimension only. *)
Definition withWidth (room : RoomShell.RoomSpec) (v : option Q) : RoomShell.RoomSpec :=
  RoomShell.mkRoom v room.(RoomShell.height) room.(RoomShell.depth)
    room.(RoomShell.color) room.(RoomShell.wallTexture).
Definition withHeight (room : RoomShell.RoomSpec) (v : option Q) : RoomShell.RoomSpec :=
  RoomShell.mkRoom room.(RoomShell.width) v room.(RoomShell.depth)
    room.(RoomShell.color) room.(RoomShell.wallTexture).
Definition withDepth (room : RoomShell.RoomSpec) (v : option Q) : RoomShell.RoomSpec :=
  RoomShell.mkRoom room.(RoomShell.width) room.(RoomShell.height) v
    room.(RoomShell.color) room.(RoomShell.wallTexture).

End Extent.

(* ================================================================== *)
(** ** The camera element of the render *)

Module Render.

Import JS Three Scene.
Open Scope Q_scope.
Open Scope string_scope.

(** The attributes given to [PerspectiveCamera] in the other views. *)
Record Perspective : Type := mkPerspective {
  fov : Q;
  persp_position : Vec3;
  persp_near : Q;
  persp_far : Q
}.

Inductive CameraElement : Type :=
| orthographic (c : Orthographic)
| perspective (c : Perspective).

(** The camera the render of [Scene] mounts as default camera. *)
Definition sceneCamera (viewMode : string) (width depth : Q) : CameraElement :=
  if viewMode =? "2D" then orthographic (orthographicCamera width depth)
  else perspective (mkPerspective 50 (10, 10, 10) 0.1 100).

(** What an orthographic camera of three.js shows: half of the width
    and of the height of the view, as [updateProjectionMatrix] computes
    them from the frustum and the zoom of the camera,
    [dx = (right - left) / (2 * zoom)] and
    [dy = (top - bottom) / (2 * zoom)]. *)
Definition dx (c : Orthographic) : Q := (c.(right) - c.(left)) / (2 * c.(ortho_zoom)).
Definition dy (c : Orthographic) : Q := (c.(top) - c.(bottom)) / (2 * c.(ortho_zoom)).

End Render.

(* ================================================================== *)
(** ** Regular expressions, as the sign-in form tests them *)

Module Regex.

Local Open Scope nat_scope.

(** A JavaScript string: its UTF-16 code units. *)
Definition JSString : Type := list N.

Inductive Rx : Type :=
| Never
| Empty
| Class (p : N -> bool)
| Cat (a b : Rx)
| Alt (a b : Rx)
| Star (a : Rx).

(** [a+]. *)
Definition Plus (a : Rx) : Rx := Cat a (Star a).

Fixpoint nullable (r : Rx) : bool :=
  match r with
  | Never => false
  | Empty => true
  | Class _ => false
  | Cat a b => nullable a && nullable b
  | Alt a b => nullable a || nullable b
  | Star _ => true
  end.

(** What is left of [r] after the code unit [c]. *)
Fixpoint deriv (c : N) (r : Rx) : Rx :=
  match r with
  | Never => Never
  | Empty => Never
  | Class p => if p c then Empty else Never
  | Cat a b =>
      if nullable a then Alt (Cat (deriv c a) b) (deriv c b)
      else Cat (deriv c a) b
  | Alt a b => Alt (deriv c a) (deriv c b)
  | Star a => Cat (deriv c a) (Star a)
  end.

(** Whether [r] matches at the start of [s]. *)
Fixpoint matchesAtStart (r : Rx) (s : JSString) : bool :=
  nullable r
  || match s with
     | [] => false
     | c :: t => matchesAtStart (deriv c r) t
     end.

(** [r.test(s)] for a regular expression without flags: whether [r]
    matches somewhere in [s]. *)
Fixpoint test (r : Rx) (s : JSString) : bool :=
  matchesAtStart r s
  || match s with
     | [] => false
     | _ :: t => test r t
     end.

(** The class [\s]: white space and line terminators. *)
Definition isWhiteSpace (c : N) : bool :=
  ((9 <=? c)%N && (c <=? 13)%N) || (c =? 32)%N || (c =? 160)%N || (c =? 5760)%N
  || ((8192 <=? c)%N && (c <=? 8202)%N) || (c =? 8232)%N || (c =? 8233)%N
  || (c =? 8239)%N || (c =? 8287)%N || (c =? 12288)%N || (c =? 65279)%N.

(** The class [\S]. *)
Definition notWhiteSpace (c : N) : bool := negb (isWhiteSpace c).

(** The words a regular expression matches. *)
Inductive Matches : Rx -> JSString -> Prop :=
| MEmpty : Matches Empty []
| MClass (p : N -> bool) (c : N) : p c = true -> Matches (Class p) [c]
| MCat (a b : Rx) (s t : JSString) :
    Matches a s -> Matches b t -> Matches (Cat a b) (s ++ t)
| MAltL (a b : Rx) (s : JSString) : Matches a s -> Matches (Alt a b) s
| MAltR (a b : Rx) (s : JSString) : Matches b s -> Matches (Alt a b) s
| MStarNil (a : Rx) : Matches (Star a) []
| MStarApp (a : Rx) (s t : JSString) :
    Matches a s -> Matches (Star a) t -> Matches (Star a) (s ++ t).

End Regex.

(* ================================================================== *)
(** ** The sign-in form: [Login] *)

Module Login.

Import Regex.
Local Open Scope nat_scope.
Local Open Scope string_scope.

(** The object [errors]: a key that is absent is [None]. *)
Record Errors : Type := mkErrors {
  email_error : option string;
  password_error : option string;
  auth_error : option string
}.

(** The state of the component. *)
Record State : Type := mkState {
  email : JSString;
  password : JSString;
  showPassword : bool;
  errors : Errors;
  isLoading : bool
}.

Definition initial : State := mkState [] [] false (mkErrors None None None) false.

(** The [onChange] handlers of the two inputs and the [onClick] handler
    of the eye button. *)
Definition setEmail (st : State) (value : JSString) : State :=
  mkState value st.(password) st.(showPassword) st.(errors) st.(isLoading).

Definition setPassword (st : State) (value : JSString) : State :=
  mkState st.(email) value st.(showPassword) st.(errors) st.(isLoading).

Definition toggleShowPassword (st : State) : State :=
  mkState st.(email) st.(password) (negb st.(showPassword)) st.(errors) st.(isLoading).

Fixpoint dropWhile (p : N -> bool) (s : JSString) : JSString :=
  match s with
  | [] => []
  | c :: t => if p c then dropWhile p t else s
  end.

(** [s.trim()]. *)
Definition trim (s : JSString) : JSString :=
  rev (dropWhile isWhiteSpace (rev (dropWhile isWhiteSpace s))).

(** [!s] on a string. *)
Definition isEmpty (s : JSString) : bool :=
  match s with
  | [] => true
  | _ :: _ => false
  end.

(** The regular expression [/\S+@\S+\.\S+/]. *)
Definition emailRx : Rx :=
  Cat (Plus (Class notWhiteSpace))
    (Cat (Class (N.eqb 64))
       (Cat (Plus (Class notWhiteSpace))
          (Cat (Class (N.eqb 46)) (Plus (Class notWhiteSpace))))).

(** [Object.keys(errors).length]. *)
Definition keyCount (e : Errors) : nat :=
  let present (v : option string) : nat :=
    match v with Some _ => 1 | None => 0 end in
  present e.(email_error) + present e.(password_error) + present e.(auth_error).

(** The object [newErrors] that [validate] builds. *)
Definition newErrors (st : State) : Errors :=
  mkErrors
    (if isEmpty (trim st.(email)) then Some "Email is required"
     else if negb (test emailRx st.(email)) then Some "Email is invalid"
     else None)
    (if isEmpty st.(password) then Some "Password is required"
     else if (List.length st.(password) <? 6)%nat
          then Some "Password must be at least 6 characters"
     else None)
    None.

(** [validate]: the state after [setErrors(newErrors)] and the value
    returned. *)
Definition validate (st : State) : State * bool :=
  let e := newErrors st in
  (mkState st.(email) st.(password) st.(showPassword) e st.(isLoading),
   Nat.eqb (keyCount e) 0).

(** How [signInWithEmailAndPassword] settles. *)
Inductive SignIn : Type :=
| resolves
| rejects (message : string).

(** What [handleSubmit] does to the outside. *)
Inductive Effect : Type :=
| preventDefault
| signInWithEmailAndPassword (email password : JSString)
| navigate (path : string).

(** [handleSubmit]: the final state and the effects in order, given how
    the sign-in settles if it is called. *)
Definition handleSubmit (st : State) (outcome : SignIn) : State * list Effect :=
  let '(st1, ok) := validate st in
  if negb ok then (st1, [preventDefault])
  else
    let st2 := mkState st1.(email) st1.(password) st1.(showPassword) st1.(errors) true in
    match outcome with
    | resolves =>
        (st2, [preventDefault; signInWithEmailAndPassword st.(email) st.(password);
               navigate "/dashboard"])
    | rejects message =>
        (mkState st2.(email) st2.(password) st2.(showPassword)
                 (mkErrors None None (Some message)) false,
         [preventDefault; signInWithEmailAndPassword st.(email) st.(password)])
    end.

(** The words the specification of the e-mail test speaks of: some
    text, an [@], some text, a dot, some text, each without white space
    and not empty, anywhere in the string. *)
Definition solid (w : JSString) : Prop :=
  w <> [] /\ Forall (fun c => notWhiteSpace c = true) w.

Definition emailShape (s : JSString) : Prop :=
  exists before name domain tld after,
    s = (before ++ name ++ [64%N] ++ domain ++ [46%N] ++ tld ++ after)%list
    /\ solid name /\ solid domain /\ solid tld.

End Login.

(* ================================================================== *)
(** ** Proof automation *)

(** Unfold the builders and read the fields of a descriptor. *)
Ltac builder_fields :=
  unfold Furniture.Chair, Furniture.Table, Furniture.Sofa, Furniture.Bookshelf,
         Furniture.TVStand, Furniture.Bed, Furniture.Lamp,
         Spec.withShade, Spec.withScale;
  cbn [Furniture.id Furniture.type Furniture.x Furniture.z Furniture.scale
       Furniture.color Furniture.shade].

(** Decide every comparison of the goal whose operands are settled,
    dropping the branches that linear arithmetic refutes. *)
Ltac split_ifs :=
  repeat match goal with
  | |- context [Qlt_le_dec ?a ?b] =>
      lazymatch a with context [Qlt_le_dec _ _] => fail | _ => idtac end;
      destruct (Qlt_le_dec a b); try (exfalso; qconst; lra)
  end.

Ltac arith := qconst; nra.

(** Membership of an explicit entry in an explicit list. *)
Ltac listed := cbv [Spec.registry]; cbn [In]; tauto.

(** Comparison of two literals. *)
Ltac qcmp := unfold Qle, Qlt; simpl; lia.

(* ================================================================== *)
(** ** Properties of the colour adjustment *)

Module ColorProps.

Import JS Color Spec.
Open Scope Q_scope.
Open Scope string_scope.

Lemma isHexDigit_hexChars (c : ascii) :
  isHexDigit c = true -> In c hexChars.
Proof.
  destruct c as [[] [] [] [] [] [] [] []]; vm_compute; intro H;
    try discriminate H; tauto.
Qed.

Lemma allHex_all_in (s : string) : allHex s = true -> all_in hexChars s.
Proof.
  induction s as [| c t IH]; simpl; [trivial |].
  intro H. apply andb_true_iff in H. destruct H as [Hc Ht].
  split; [apply isHexDigit_hexChars; exact Hc | apply IH; exact Ht].
Qed.

Lemma testHex6_canonical (s : string) :
  testHex6 s = true -> String.length s = 6%nat /\ all_in hexChars s.
Proof.
  unfold testHex6. intro H. apply andb_true_iff in H. destruct H as [Hl Ha].
  split; [apply Nat.eqb_eq; exact Hl | apply allHex_all_in; exact Ha].
Qed.

Lemma startsWith_hash (s : string) :
  startsWith s "#" = true -> s = String "#" (slice1 s).
Proof.
  destruct s as [| a t]; simpl; [discriminate |].
  intro H. apply Ascii.eqb_eq in H. now subst a.
Qed.

(** C5. A string that is not in the canonical form (six hexadecimal
    digits, optionally preceded by [#]) is returned unchanged, whatever
    the shade; the function is total on strings. *)
Theorem adjust_invalid_unchanged (hexColor : string) (shade : Q) :
  ~ canonicalHex hexColor -> adjustColorBrightness hexColor shade = hexColor.
Proof.
  intro Hnot. unfold adjustColorBrightness.
  destruct (testHex6 (if startsWith hexColor "#" then slice1 hexColor else hexColor))
    eqn:Htest; simpl; [| reflexivity].
  exfalso. apply Hnot. apply testHex6_canonical in Htest.
  destruct (startsWith hexColor "#") eqn:Hs.
  - exists (slice1 hexColor). split; [right; now apply startsWith_hash | exact Htest].
  - exists hexColor. split; [now left | exact Htest].
Qed.

Lemma adjust_invalid_unchanged_witness :
  ~ canonicalHex "#12345" /\ adjustColorBrightness "#12345" 40 = "#12345".
Proof.
  assert (H : ~ canonicalHex "#12345").
  { intros [body [[Hb | Hb] [Hl Ha]]].
    - rewrite <- Hb in Ha. simpl in Ha. destruct Ha as [Hin _].
      repeat (destruct Hin as [Hin | Hin]; [discriminate Hin |]). exact Hin.
    - injection Hb as Hb. rewrite <- Hb in Hl. simpl in Hl. discriminate Hl. }
  split; [exact H | exact (adjust_invalid_unchanged "#12345" 40 H)].
Defined.

(** *** Valid colours *)

Lemma hexValue_range (c : ascii) (v : Z) :
  hexValue c = Some v -> (0 <= v <= 15)%Z.
Proof.
  destruct c as [[] [] [] [] [] [] [] []]; vm_compute; intro H;
    try discriminate H; injection H as <-; split; discriminate.
Qed.

Lemma channelValue_range (c1 c2 : ascii) (v : Z) :
  channelValue c1 c2 = Some v -> (0 <= v <= 255)%Z.
Proof.
  unfold channelValue.
  destruct (hexValue c1) as [a |] eqn:H1; [| discriminate].
  destruct (hexValue c2) as [b |] eqn:H2; [| discriminate].
  intro H. assert (E : (16 * a + b)%Z = v) by congruence.
  apply hexValue_range in H1. apply hexValue_range in H2. lia.
Qed.

Lemma bodyValue_range (body : string) (r g b : Z) :
  bodyValue body = Some (r, g, b) ->
  (0 <= r <= 255 /\ 0 <= g <= 255 /\ 0 <= b <= 255)%Z.
Proof.
  destruct body as [| r1 [| r2 [| g1 [| g2 [| b1 [| b2 [| ? ?]]]]]]];
    simpl; try discriminate.
  destruct (channelValue r1 r2) eqn:Hr; [| discriminate].
  destruct (channelValue g1 g2) eqn:Hg; [| discriminate].
  destruct (channelValue b1 b2) eqn:Hb; [| discriminate].
  intro H. injection H as <- <- <-.
  apply channelValue_range in Hr. apply channelValue_range in Hg.
  apply channelValue_range in Hb. tauto.
Qed.

Lemma channelValue_digits (c1 c2 : ascii) (v : Z) :
  channelValue c1 c2 = Some v ->
  isHexDigit c1 = true /\ isHexDigit c2 = true
  /\ parseInt16 (String c1 (String c2 EmptyString)) = Some v.
Proof.
  unfold channelValue, isHexDigit, parseInt16, parseHexFrom.
  destruct (hexValue c1) as [a |]; [| discriminate].
  destruct (hexValue c2) as [b |]; [| discriminate].
  intro H. repeat split. exact H.
Qed.

(** A string with a value passes the validity test and is read as that
    value. *)
Lemma bodyValue_channels (body : string) (r g b : Z) :
  bodyValue body = Some (r, g, b) ->
  testHex6 body = true
  /\ channels body = Some (inject_Z r / 255, inject_Z g / 255, inject_Z b / 255).
Proof.
  destruct body as [| r1 [| r2 [| g1 [| g2 [| b1 [| b2 [| ? ?]]]]]]];
    simpl; try discriminate.
  destruct (channelValue r1 r2) as [r' |] eqn:Hr; [| discriminate].
  destruct (channelValue g1 g2) as [g' |] eqn:Hg; [| discriminate].
  destruct (channelValue b1 b2) as [b' |] eqn:Hb; [| discriminate].
  intro H. injection H as -> -> ->.
  apply channelValue_digits in Hr. destruct Hr as (Hr1 & Hr2 & Hr).
  apply channelValue_digits in Hg. destruct Hg as (Hg1 & Hg2 & Hg).
  apply channelValue_digits in Hb. destruct Hb as (Hb1 & Hb2 & Hb).
  split.
  - unfold testHex6. cbn [String.length Nat.eqb allHex andb].
    rewrite Hr1, Hr2, Hg1, Hg2, Hb1, Hb2. reflexivity.
  - unfold channels, substr. cbn [substring]. rewrite Hr, Hg, Hb. reflexivity.
Qed.

Lemma colorValue_cases (s : string) (v : Z * Z * Z) :
  colorValue s = Some v ->
  (exists body, s = String "#" body /\ bodyValue body = Some v)
  \/ (startsWith s "#" = false /\ bodyValue s = Some v).
Proof.
  destruct s as [| c t]; [simpl; discriminate |].
  destruct (Ascii.eqb c "#") eqn:E.
  - apply Ascii.eqb_eq in E. subst c. intro H. left. exists t. split; [reflexivity | exact H].
  - intro H. right. split; [exact E |].
    destruct c as [[] [] [] [] [] [] [] []]; try discriminate E; exact H.
Qed.

Lemma hexChars_hexValue (c : ascii) : In c hexChars -> hexValue c <> None.
Proof.
  unfold hexChars. cbn [list_ascii_of_string In].
  intro H. repeat (destruct H as [<- | H]; [discriminate |]). destruct H.
Qed.

Lemma body_has_value (body : string) :
  String.length body = 6%nat -> all_in hexChars body ->
  exists v, bodyValue body = Some v.
Proof.
  destruct body as [| r1 [| r2 [| g1 [| g2 [| b1 [| b2 [| ? ?]]]]]]];
    cbn [String.length]; try discriminate.
  intros _ (H1 & H2 & H3 & H4 & H5 & H6 & _).
  apply hexChars_hexValue in H1, H2, H3, H4, H5, H6.
  unfold bodyValue, channelValue.
  destruct (hexValue r1); [| contradiction]. destruct (hexValue r2); [| contradiction].
  destruct (hexValue g1); [| contradiction]. destruct (hexValue g2); [| contradiction].
  destruct (hexValue b1); [| contradiction]. destruct (hexValue b2); [| contradiction].
  eexists. reflexivity.
Qed.

(** The strings with a colour value are the canonical ones. *)
Lemma colorValue_canonical (s : string) :
  canonicalHex s <-> exists v, colorValue s = Some v.
Proof.
  split.
  - intros (body & [-> | ->] & Hl & Ha).
    + destruct (body_has_value body Hl Ha) as [v Hv]. exists v.
      destruct body as [| c t]; [discriminate Hl |].
      destruct Ha as [Hc _].
      unfold hexChars in Hc. cbn [list_ascii_of_string In] in Hc.
      repeat (destruct Hc as [<- | Hc]; [exact Hv |]). destruct Hc.
    + destruct (body_has_value body Hl Ha) as [v Hv]. exists v. exact Hv.
  - intros [v Hv]. destruct (colorValue_cases s v Hv) as [[body [-> Hb]] | [_ Hb]].
    + exists body. destruct v as [[r g] b].
      apply bodyValue_channels in Hb. destruct Hb as [Ht _].
      apply testHex6_canonical in Ht. split; [now right | exact Ht].
    + exists s. destruct v as [[r g] b].
      apply bodyValue_channels in Hb. destruct Hb as [Ht _].
      apply testHex6_canonical in Ht. split; [now left | exact Ht].
Qed.

(** On a valid colour the result is [#] followed by the three new
    channels printed by [toHex]. *)
Lemma adjust_valid (hexColor : string) (shade : Q) (r g b : Z) :
  colorValue hexColor = Some (r, g, b) ->
  adjustColorBrightness hexColor shade =
  let '(newR, newG, newB) :=
    newChannels (inject_Z r / 255, inject_Z g / 255, inject_Z b / 255) shade in
  String "#" (toHex newR ++ toHex newG ++ toHex newB).
Proof.
  intro H. apply colorValue_cases in H.
  unfold adjustColorBrightness.
  destruct H as [[body [-> H]] | [Hs H]].
  - simpl startsWith. cbv iota. simpl slice1.
    apply bodyValue_channels in H. destruct H as [Ht Hc].
    rewrite Ht, Hc. reflexivity.
  - rewrite Hs. apply bodyValue_channels in H. destruct H as [Ht Hc].
    rewrite Ht, Hc. reflexivity.
Qed.

(** *** Printing a channel *)

Lemma bytes_complete (n : Z) : (0 <= n <= 255)%Z -> In n bytes.
Proof.
  intro H. unfold bytes. apply in_map_iff. exists (Z.to_nat n).
  split; [lia | apply in_seq; lia].
Qed.

Lemma printed_hex2 (n : Z) : (0 <= n <= 255)%Z -> printed n = hex2 n.
Proof.
  intro H. apply bytes_complete in H.
  assert (A : forallb (fun k => String.eqb (printed k) (hex2 k)) bytes = true)
    by (vm_compute; reflexivity).
  rewrite forallb_forall in A. apply String.eqb_eq. apply A. exact H.
Qed.

Lemma toHex_hex2 (c : Q) :
  (0 <= Math_round (c * 255) <= 255)%Z -> toHex c = hex2 (Math_round (c * 255)).
Proof. intro H. apply (printed_hex2 _ H). Qed.

Lemma Math_round_near (x : Q) :
  inject_Z (Math_round x) - 1 / 2 <= x /\ x < inject_Z (Math_round x) + 1 / 2.
Proof.
  unfold Math_round.
  pose proof (Qfloor_le (x + (1 # 2))) as Hl.
  pose proof (Qlt_floor (x + (1 # 2))) as Hu.
  rewrite inject_Z_plus in Hu. change (inject_Z 1) with 1 in Hu.
  set (k := inject_Z (Qfloor (x + (1 # 2)))) in *. qconst. split; lra.
Qed.

Lemma Math_round_range (x : Q) (lo hi : Z) :
  inject_Z lo <= x -> x <= inject_Z hi -> (lo <= Math_round x <= hi)%Z.
Proof.
  intros Hlo Hhi. destruct (Math_round_near x) as [Hl Hu].
  split; apply Z.lt_succ_r; rewrite Zlt_Qlt; unfold Z.succ;
    rewrite inject_Z_plus; change (inject_Z 1) with 1;
    set (k := inject_Z (Math_round x)) in *;
    set (a := inject_Z lo) in *; set (b := inject_Z hi) in *;
    qconst; lra.
Qed.

(** *** Achromatic colours *)

Lemma Math_max3_same (v : Q) : Math_max3 v v v = v.
Proof.
  assert (E : Math_max v v = v)
    by (unfold Math_max; destruct (Qlt_le_dec v v); reflexivity).
  unfold Math_max3. rewrite E. exact E.
Qed.

Lemma Math_min3_same (v : Q) : Math_min3 v v v = v.
Proof.
  assert (E : Math_min v v = v)
    by (unfold Math_min; destruct (Qlt_le_dec v v); reflexivity).
  unfold Math_min3. rewrite E. exact E.
Qed.

Lemma rgbToHsl_grey (v : Q) : rgbToHsl v v v = (0, 0, (v + v) / 2).
Proof.
  unfold rgbToHsl. rewrite Math_max3_same, Math_min3_same.
  destruct (Qeq_dec v v) as [_ | Hne]; [reflexivity |].
  exfalso. apply Hne. reflexivity.
Qed.

Lemma hslToRgb_grey (h l : Q) : hslToRgb h 0 l = (l, l, l).
Proof.
  unfold hslToRgb.
  destruct (Qeq_dec 0 0) as [_ | Hne]; [reflexivity |].
  exfalso. apply Hne. reflexivity.
Qed.

(** C7. For an achromatic valid colour (the three channels equal) and a
    shade between 0 and 100, the result is [#] followed by three times
    the same channel [n], printed as two lowercase hexadecimal digits,
    where [n] is [shade / 100 * 255] rounded to the nearest integer
    (halves up), a value between 0 and 255. *)
Theorem adjust_achromatic (hexColor : string) (shade : Q) (v : Z) :
  colorValue hexColor = Some (v, v, v) ->
  0 <= shade -> shade <= 100 ->
  let n := Math_round (shade / 100 * 255) in
  (0 <= n <= 255)%Z
  /\ inject_Z n - 1 / 2 <= shade / 100 * 255 < inject_Z n + 1 / 2
  /\ adjustColorBrightness hexColor shade = String "#" (hex2 n ++ hex2 n ++ hex2 n).
Proof.
  intros Hv H0 H100 n.
  assert (Hn : (0 <= n <= 255)%Z).
  { apply Math_round_range.
    - change (inject_Z 0) with 0. qconst. lra.
    - change (inject_Z 255) with 255. qconst. lra. }
  split; [exact Hn |]. split; [apply Math_round_near |].
  rewrite (adjust_valid hexColor shade v v v Hv). unfold newChannels.
  rewrite rgbToHsl_grey, hslToRgb_grey.
  rewrite (toHex_hex2 (shade / 100)) by exact Hn. reflexivity.
Qed.

Lemma adjust_achromatic_witness :
  adjustColorBrightness "#808080" 50 = "#808080"
  /\ adjustColorBrightness "C0c0C0" 30 = "#4d4d4d".
Proof.
  split.
  - refine (proj2 (proj2 (adjust_achromatic "#808080" 50 128 _ _ _)));
      [reflexivity | lra | lra].
  - refine (proj2 (proj2 (adjust_achromatic "C0c0C0" 30 192 _ _ _)));
      [reflexivity | lra | lra].
Defined.

(** *** Hue, saturation and lightness of the new channels *)

Lemma Math_max_spec (a b : Q) :
  a <= Math_max a b /\ b <= Math_max a b /\ (Math_max a b = a \/ Math_max a b = b).
Proof.
  unfold Math_max. destruct (Qlt_le_dec a b); repeat split; auto; lra.
Qed.

Lemma Math_min_spec (a b : Q) :
  Math_min a b <= a /\ Math_min a b <= b /\ (Math_min a b = a \/ Math_min a b = b).
Proof.
  unfold Math_min. destruct (Qlt_le_dec b a); repeat split; auto; lra.
Qed.

Lemma Math_max3_eq (r g b q : Q) :
  r <= q -> g <= q -> b <= q -> (r == q \/ g == q \/ b == q) ->
  Math_max3 r g b == q.
Proof.
  intros Hr Hg Hb Hq. unfold Math_max3.
  destruct (Math_max_spec r g) as (A1 & A2 & A3).
  destruct (Math_max_spec (Math_max r g) b) as (B1 & B2 & B3).
  set (M := Math_max (Math_max r g) b) in *. set (N := Math_max r g) in *.
  apply Qle_antisym.
  - destruct B3 as [-> | ->]; [destruct A3 as [-> | ->] |]; assumption.
  - destruct Hq as [<- | [<- | <-]]; lra.
Qed.

Lemma Math_min3_eq (r g b p : Q) :
  p <= r -> p <= g -> p <= b -> (r == p \/ g == p \/ b == p) ->
  Math_min3 r g b == p.
Proof.
  intros Hr Hg Hb Hp. unfold Math_min3.
  destruct (Math_min_spec r g) as (A1 & A2 & A3).
  destruct (Math_min_spec (Math_min r g) b) as (B1 & B2 & B3).
  set (M := Math_min (Math_min r g) b) in *. set (N := Math_min r g) in *.
  apply Qle_antisym.
  - destruct Hp as [<- | [<- | <-]]; lra.
  - destruct B3 as [-> | ->]; [destruct A3 as [-> | ->] |]; assumption.
Qed.

Lemma lightOf_eq (r g b q p : Q) :
  Math_max3 r g b == q -> Math_min3 r g b == p -> lightOf r g b == (q + p) / 2.
Proof.
  intros HM Hm. unfold lightOf, rgbToHsl.
  destruct (Qeq_dec (Math_max3 r g b) (Math_min3 r g b)); cbn [snd];
    rewrite HM, Hm; reflexivity.
Qed.

Lemma satOf_grey (r g b : Q) :
  Math_max3 r g b == Math_min3 r g b -> satOf r g b = 0 /\ hueOf r g b = 0.
Proof.
  intro H. unfold satOf, hueOf, rgbToHsl.
  destruct (Qeq_dec (Math_max3 r g b) (Math_min3 r g b)); [split; reflexivity | contradiction].
Qed.

Lemma satOf_low (r g b q p : Q) :
  Math_max3 r g b == q -> Math_min3 r g b == p -> p < q -> (q + p) / 2 <= 1 / 2 ->
  satOf r g b == (q - p) / (q + p).
Proof.
  intros HM Hm Hpq Hl. unfold satOf, rgbToHsl.
  destruct (Qeq_dec (Math_max3 r g b) (Math_min3 r g b)) as [E | _];
    [exfalso; rewrite HM, Hm in E; lra |].
  cbn [fst snd].
  destruct (Qlt_le_dec (1 / 2) ((Math_max3 r g b + Math_min3 r g b) / 2)) as [Hhi | _].
  - exfalso. rewrite HM, Hm in Hhi. lra.
  - rewrite HM, Hm. reflexivity.
Qed.

Lemma satOf_high (r g b q p : Q) :
  Math_max3 r g b == q -> Math_min3 r g b == p -> p < q -> 1 / 2 < (q + p) / 2 ->
  satOf r g b == (q - p) / (2 - q - p).
Proof.
  intros HM Hm Hpq Hl. unfold satOf, rgbToHsl.
  destruct (Qeq_dec (Math_max3 r g b) (Math_min3 r g b)) as [E | _];
    [exfalso; rewrite HM, Hm in E; lra |].
  cbn [fst snd].
  destruct (Qlt_le_dec (1 / 2) ((Math_max3 r g b + Math_min3 r g b) / 2)) as [_ | Hlo].
  - rewrite HM, Hm. reflexivity.
  - exfalso. rewrite HM, Hm in Hlo. lra.
Qed.

Section Hue.
Variables r g b q p : Q.
Hypothesis HM : Math_max3 r g b == q.
Hypothesis Hm : Math_min3 r g b == p.
Hypothesis Hpq : p < q.

Lemma hue_red_up : r == q -> b <= g -> hueOf r g b == (g - b) / (q - p) / 6.
Proof.
  intros Hr Hbg. unfold hueOf, rgbToHsl.
  destruct (Qeq_dec (Math_max3 r g b) (Math_min3 r g b)) as [E | _];
    [exfalso; rewrite HM, Hm in E; lra |].
  cbn [fst].
  destruct (Qeq_dec (Math_max3 r g b) r) as [_ | N];
    [| exfalso; apply N; rewrite HM, Hr; reflexivity].
  destruct (Qlt_le_dec g b) as [L | _]; [exfalso; lra |].
  rewrite HM, Hm. field. lra.
Qed.

Lemma hue_red_down : r == q -> g < b -> hueOf r g b == ((g - b) / (q - p) + 6) / 6.
Proof.
  intros Hr Hbg. unfold hueOf, rgbToHsl.
  destruct (Qeq_dec (Math_max3 r g b) (Math_min3 r g b)) as [E | _];
    [exfalso; rewrite HM, Hm in E; lra |].
  cbn [fst].
  destruct (Qeq_dec (Math_max3 r g b) r) as [_ | N];
    [| exfalso; apply N; rewrite HM, Hr; reflexivity].
  destruct (Qlt_le_dec g b) as [_ | L]; [| exfalso; lra].
  rewrite HM, Hm. reflexivity.
Qed.

Lemma hue_green : r < q -> g == q -> hueOf r g b == ((b - r) / (q - p) + 2) / 6.
Proof.
  intros Hr Hg. unfold hueOf, rgbToHsl.
  destruct (Qeq_dec (Math_max3 r g b) (Math_min3 r g b)) as [E | _];
    [exfalso; rewrite HM, Hm in E; lra |].
  cbn [fst].
  destruct (Qeq_dec (Math_max3 r g b) r) as [E | _];
    [exfalso; rewrite HM in E; lra |].
  destruct (Qeq_dec (Math_max3 r g b) g) as [_ | N];
    [| exfalso; apply N; rewrite HM, Hg; reflexivity].
  rewrite HM, Hm. reflexivity.
Qed.

Lemma hue_blue : r < q -> g < q -> hueOf r g b == ((r - g) / (q - p) + 4) / 6.
Proof.
  intros Hr Hg. unfold hueOf, rgbToHsl.
  destruct (Qeq_dec (Math_max3 r g b) (Math_min3 r g b)) as [E | _];
    [exfalso; rewrite HM, Hm in E; lra |].
  cbn [fst].
  destruct (Qeq_dec (Math_max3 r g b) r) as [E | _];
    [exfalso; rewrite HM in E; lra |].
  destruct (Qeq_dec (Math_max3 r g b) g) as [E | _];
    [exfalso; rewrite HM in E; lra |].
  destruct (Qeq_dec (Math_max3 r g b) b) as [_ | N].
  - rewrite HM, Hm. reflexivity.
  - exfalso. apply N. unfold Math_max3 in *.
    destruct (Math_max_spec r g) as (A1 & A2 & [A3 | A3]);
    destruct (Math_max_spec (Math_max r g) b) as (B1 & B2 & [B3 | B3]);
    rewrite B3 in *; try reflexivity; rewrite A3 in *; lra.
Qed.

End Hue.

(** Settle the maximum and the minimum of three explicit channels that
    lie between [p] and [q]. *)
Ltac extremes p q :=
  match goal with
  | |- Math_max3 ?r ?g ?b == q /\ Math_min3 ?r ?g ?b == p /\ _ =>
      assert (HM : Math_max3 r g b == q)
        by (apply Math_max3_eq;
            [arith | arith | arith
            | first [left; reflexivity | right; left; reflexivity
                    | right; right; reflexivity]]);
      assert (Hm : Math_min3 r g b == p)
        by (apply Math_min3_eq;
            [arith | arith | arith
            | first [left; reflexivity | right; left; reflexivity
                    | right; right; reflexivity]]);
      split; [exact HM | split; [exact Hm |]]
  end.

Section Channels.
Variables p q h : Q.
Hypothesis Hpq : p < q.

Lemma hue_channels_0 : 0 <= h -> h < 1 / 6 -> hueRoundTrip p q h.
Proof.
  intros H0 H1. unfold hueRoundTrip.
  cbv beta zeta delta [hueToRgb]. split_ifs. extremes p q.
  rewrite (hue_red_up _ _ _ q p HM Hm Hpq); [field; lra | reflexivity | arith].
Qed.

Lemma hue_channels_1 : 1 / 6 <= h -> h < 1 / 3 -> hueRoundTrip p q h.
Proof.
  intros H0 H1. unfold hueRoundTrip.
  cbv beta zeta delta [hueToRgb]. split_ifs. extremes p q.
  destruct (Qeq_dec h (1 / 6)) as [E | N].
  - rewrite (hue_red_up _ _ _ q p HM Hm Hpq); [| rewrite E; field | lra].
    rewrite E. field. lra.
  - rewrite (hue_green _ _ _ q p HM Hm Hpq); [field; lra | | reflexivity].
    assert (1 / 6 < h) by (qconst; destruct (Qlt_le_dec (1 # 6) h); [assumption | exfalso; apply N; lra]).
    arith.
Qed.

Lemma hue_channels_2 : 1 / 3 <= h -> h < 1 / 2 -> hueRoundTrip p q h.
Proof.
  intros H0 H1. unfold hueRoundTrip.
  cbv beta zeta delta [hueToRgb]. split_ifs. extremes p q.
  rewrite (hue_green _ _ _ q p HM Hm Hpq); [field; lra | lra | reflexivity].
Qed.

Lemma hue_channels_3 : 1 / 2 <= h -> h < 2 / 3 -> hueRoundTrip p q h.
Proof.
  intros H0 H1. unfold hueRoundTrip.
  cbv beta zeta delta [hueToRgb]. split_ifs. extremes p q.
  destruct (Qeq_dec h (1 / 2)) as [E | N].
  - rewrite (hue_green _ _ _ q p HM Hm Hpq); [| lra | rewrite E; field].
    rewrite E. field. lra.
  - rewrite (hue_blue _ _ _ q p HM Hm Hpq); [field; lra | lra |].
    assert (1 / 2 < h) by (qconst; destruct (Qlt_le_dec (1 # 2) h); [assumption | exfalso; apply N; lra]).
    arith.
Qed.

Lemma hue_channels_4 : 2 / 3 <= h -> h < 5 / 6 -> hueRoundTrip p q h.
Proof.
  intros H0 H1. unfold hueRoundTrip.
  cbv beta zeta delta [hueToRgb]. split_ifs; extremes p q.
  - rewrite (hue_blue _ _ _ q p HM Hm Hpq); [field; lra | arith | lra].
  - rewrite (hue_blue _ _ _ q p HM Hm Hpq); [| lra | lra].
    assert (E : h == 2 / 3) by (qconst; lra). rewrite E. field. lra.
Qed.

Lemma hue_channels_5 : 5 / 6 <= h -> h < 1 -> hueRoundTrip p q h.
Proof.
  intros H0 H1. unfold hueRoundTrip.
  cbv beta zeta delta [hueToRgb]. split_ifs. extremes p q.
  rewrite (hue_red_down _ _ _ q p HM Hm Hpq); [field; lra | reflexivity | arith].
Qed.

Lemma hue_channels : 0 <= h -> h < 1 -> hueRoundTrip p q h.
Proof.
  intros H0 H1.
  destruct (Qlt_le_dec h (1 / 6)); [now apply hue_channels_0 |].
  destruct (Qlt_le_dec h (1 / 3)); [now apply hue_channels_1 |].
  destruct (Qlt_le_dec h (1 / 2)); [now apply hue_channels_2 |].
  destruct (Qlt_le_dec h (2 / 3)); [now apply hue_channels_3 |].
  destruct (Qlt_le_dec h (5 / 6)); [now apply hue_channels_4 |].
  now apply hue_channels_5.
Qed.

End Channels.

Lemma Math_max3_bounds (r g b : Q) :
  r <= Math_max3 r g b /\ g <= Math_max3 r g b /\ b <= Math_max3 r g b
  /\ (Math_max3 r g b = r \/ Math_max3 r g b = g \/ Math_max3 r g b = b).
Proof.
  unfold Math_max3.
  destruct (Math_max_spec r g) as (A1 & A2 & A3).
  destruct (Math_max_spec (Math_max r g) b) as (B1 & B2 & B3).
  repeat split; try lra.
  destruct B3 as [-> | ->]; [destruct A3 as [-> | ->] |]; auto.
Qed.

Lemma Math_min3_bounds (r g b : Q) :
  Math_min3 r g b <= r /\ Math_min3 r g b <= g /\ Math_min3 r g b <= b
  /\ (Math_min3 r g b = r \/ Math_min3 r g b = g \/ Math_min3 r g b = b).
Proof.
  unfold Math_min3.
  destruct (Math_min_spec r g) as (A1 & A2 & A3).
  destruct (Math_min_spec (Math_min r g) b) as (B1 & B2 & B3).
  repeat split; try lra.
  destruct B3 as [-> | ->]; [destruct A3 as [-> | ->] |]; auto.
Qed.

Lemma quotient_bounds (a d : Q) :
  0 < d -> - d <= a -> a <= d -> -1 <= a / d /\ a / d <= 1.
Proof.
  intros Hd Hl Hu. split.
  - apply Qle_shift_div_l; [exact Hd | lra].
  - apply Qle_shift_div_r; [exact Hd | lra].
Qed.

Lemma quotient_sign (a d : Q) :
  0 < d -> (0 <= a -> 0 <= a / d) /\ (a < 0 -> a / d < 0).
Proof.
  intros Hd. split; intro H.
  - apply Qle_shift_div_l; [exact Hd | lra].
  - apply Qlt_shift_div_r; [exact Hd | lra].
Qed.

(** The hue computed from any three channels lies in [0, 1). *)
Lemma hueOf_range (r g b : Q) : 0 <= hueOf r g b /\ hueOf r g b < 1.
Proof.
  unfold hueOf, rgbToHsl.
  destruct (Math_max3_bounds r g b) as (M1 & M2 & M3 & _).
  destruct (Math_min3_bounds r g b) as (m1 & m2 & m3 & _).
  set (M := Math_max3 r g b) in *. set (m := Math_min3 r g b) in *.
  destruct (Qeq_dec M m) as [E | N]; cbn [fst]; [lra |].
  assert (Hd : 0 < M - m).
  { destruct (Qlt_le_dec m M); [lra | exfalso; apply N; lra]. }
  destruct (Qeq_dec M r) as [Er | Nr].
  - destruct (quotient_bounds (g - b) (M - m) Hd) as [Q1 Q2]; try lra.
    destruct (quotient_sign (g - b) (M - m) Hd) as [S1 S2].
    destruct (Qlt_le_dec g b) as [L | L].
    + assert ((g - b) / (M - m) < 0) by (apply S2; lra).
      set (X := (g - b) / (M - m)) in *. qconst. lra.
    + assert (0 <= (g - b) / (M - m)) by (apply S1; lra).
      set (X := (g - b) / (M - m)) in *. qconst. lra.
  - destruct (Qeq_dec M g) as [Eg | Ng].
    + destruct (quotient_bounds (b - r) (M - m) Hd) as [Q1 Q2]; try lra.
      set (X := (b - r) / (M - m)) in *. qconst. lra.
    + destruct (Qeq_dec M b) as [Eb | Nb].
      * destruct (quotient_bounds (r - g) (M - m) Hd) as [Q1 Q2]; try lra.
        set (X := (r - g) / (M - m)) in *. qconst. lra.
      * qconst. lra.
Qed.

(** For channels in [0, 1] that are not all equal the saturation is
    positive. *)
Lemma satOf_pos (r g b : Q) :
  0 <= r <= 1 -> 0 <= g <= 1 -> 0 <= b <= 1 ->
  ~ Math_max3 r g b == Math_min3 r g b -> 0 < satOf r g b.
Proof.
  intros Hr Hg Hb N. unfold satOf, rgbToHsl.
  destruct (Math_max3_bounds r g b) as (M1 & M2 & M3 & M4).
  destruct (Math_min3_bounds r g b) as (m1 & m2 & m3 & m4).
  set (M := Math_max3 r g b) in *. set (m := Math_min3 r g b) in *.
  assert (HM : M <= 1) by (destruct M4 as [-> | [-> | ->]]; lra).
  assert (Hm : 0 <= m) by (destruct m4 as [-> | [-> | ->]]; lra).
  destruct (Qeq_dec M m) as [E | _]; [contradiction |]. cbn [fst snd].
  assert (Hd : 0 < M - m).
  { destruct (Qlt_le_dec m M); [lra | exfalso; apply N; lra]. }
  destruct (Qlt_le_dec (1 / 2) ((M + m) / 2)).
  - apply Qlt_shift_div_l; lra.
  - apply Qlt_shift_div_l; lra.
Qed.

Lemma hslToRgb_chromatic (h s l : Q) :
  ~ s == 0 ->
  hslToRgb h s l =
  (hueToRgb (pOf s l) (qOf s l) (h + 1 / 3), hueToRgb (pOf s l) (qOf s l) h,
   hueToRgb (pOf s l) (qOf s l) (h - 1 / 3)).
Proof.
  intro N. unfold hslToRgb. destruct (Qeq_dec s 0); [contradiction | reflexivity].
Qed.

Lemma pOf_lt_qOf (s l : Q) : 0 < s -> 0 < l -> l < 1 -> pOf s l < qOf s l.
Proof.
  intros Hs H0 H1. unfold pOf, qOf. destruct (Qlt_le_dec l (1 / 2)); nra.
Qed.

Lemma pOf_le_qOf (s l : Q) : 0 <= s -> 0 <= l -> l <= 1 -> pOf s l <= qOf s l.
Proof.
  intros Hs H0 H1. unfold pOf, qOf. destruct (Qlt_le_dec l (1 / 2)); nra.
Qed.

Lemma pOf_plus_qOf (s l : Q) : (qOf s l + pOf s l) / 2 == l.
Proof. unfold pOf. field. Qed.

Lemma sat_of_pq (s l : Q) (r g b : Q) :
  0 < s -> 0 < l -> l < 1 ->
  Math_max3 r g b == qOf s l -> Math_min3 r g b == pOf s l ->
  satOf r g b == s.
Proof.
  intros Hs H0 H1 HM Hm.
  pose proof (pOf_lt_qOf s l Hs H0 H1) as Hpq.
  pose proof (pOf_plus_qOf s l) as Hl.
  destruct (Qlt_le_dec (1 / 2) l) as [Hhi | Hlo].
  - rewrite (satOf_high r g b _ _ HM Hm Hpq) by (rewrite Hl; exact Hhi).
    unfold pOf, qOf. destruct (Qlt_le_dec l (1 / 2)); [exfalso; lra |].
    field. lra.
  - rewrite (satOf_low r g b _ _ HM Hm Hpq) by (rewrite Hl; exact Hlo).
    unfold pOf, qOf. destruct (Qlt_le_dec l (1 / 2)).
    + field. lra.
    + assert (E : l == 1 / 2) by lra. rewrite E. field. lra.
Qed.

(** Between [p] and [q] when [p <= q]. *)
Lemma hueToRgb_between (p q t : Q) :
  p <= q -> -1 <= t -> t <= 2 -> p <= hueToRgb p q t /\ hueToRgb p q t <= q.
Proof.
  intros Hpq H0 H1. cbv beta zeta delta [hueToRgb]. split_ifs; split; arith.
Qed.

Lemma channels_extremes (p q h : Q) :
  p <= q -> 0 <= h -> h < 1 ->
  Math_max3 (hueToRgb p q (h + 1 / 3)) (hueToRgb p q h) (hueToRgb p q (h - 1 / 3)) == q
  /\ Math_min3 (hueToRgb p q (h + 1 / 3)) (hueToRgb p q h) (hueToRgb p q (h - 1 / 3)) == p.
Proof.
  intros Hpq H0 H1.
  destruct (Qlt_le_dec p q) as [Hlt | Hge].
  - destruct (hue_channels p q h Hlt H0 H1) as (A & B & _). split; assumption.
  - destruct (hueToRgb_between p q (h + 1 / 3) Hpq) as [R1 R2]; [qconst; lra | qconst; lra |].
    destruct (hueToRgb_between p q h Hpq) as [G1 G2]; [lra | lra |].
    destruct (hueToRgb_between p q (h - 1 / 3) Hpq) as [B1 B2]; [qconst; lra | qconst; lra |].
    split.
    + apply Math_max3_eq; try assumption. left. lra.
    + apply Math_min3_eq; try assumption. left. lra.
Qed.

(** The round trip on the unrounded channels. *)
Lemma newChannels_hsl (r g b l : Q) :
  0 <= r <= 1 -> 0 <= g <= 1 -> 0 <= b <= 1 -> 0 <= l -> l <= 1 ->
  let '(newR, newG, newB) := hslToRgb (hueOf r g b) (satOf r g b) l in
  lightOf newR newG newB == l
  /\ (0 < l -> l < 1 ->
      hueOf newR newG newB == hueOf r g b /\ satOf newR newG newB == satOf r g b).
Proof.
  intros Hr Hg Hb H0 H1.
  destruct (Qeq_dec (Math_max3 r g b) (Math_min3 r g b)) as [E | N].
  - destruct (satOf_grey r g b E) as [-> ->]. rewrite hslToRgb_grey.
    unfold lightOf, hueOf, satOf. rewrite rgbToHsl_grey. cbn [fst snd].
    split; [field | intros _ _; split; reflexivity].
  - pose proof (satOf_pos r g b Hr Hg Hb N) as Hs.
    destruct (hueOf_range r g b) as [Hh0 Hh1].
    set (h := hueOf r g b) in *. set (s := satOf r g b) in *.
    rewrite hslToRgb_chromatic by lra.
    destruct (channels_extremes (pOf s l) (qOf s l) h) as [HM Hm];
      [apply pOf_le_qOf; lra | exact Hh0 | exact Hh1 |].
    split.
    + rewrite (lightOf_eq _ _ _ _ _ HM Hm). apply pOf_plus_qOf.
    + intros Hl0 Hl1. split.
      * apply (hue_channels (pOf s l) (qOf s l) h); [apply pOf_lt_qOf; assumption | exact Hh0 | exact Hh1].
      * apply (sat_of_pq s l); assumption.
Qed.

(** *** The printed channels *)

Lemma satOf_le_one (r g b : Q) :
  0 <= r <= 1 -> 0 <= g <= 1 -> 0 <= b <= 1 ->
  0 <= satOf r g b /\ satOf r g b <= 1.
Proof.
  intros Hr Hg Hb.
  destruct (Qeq_dec (Math_max3 r g b) (Math_min3 r g b)) as [E | N].
  - destruct (satOf_grey r g b E) as [-> _]. lra.
  - split; [apply Qlt_le_weak; apply satOf_pos; assumption |].
    unfold satOf, rgbToHsl.
    destruct (Math_max3_bounds r g b) as (M1 & M2 & M3 & M4).
    destruct (Math_min3_bounds r g b) as (m1 & m2 & m3 & m4).
    set (M := Math_max3 r g b) in *. set (m := Math_min3 r g b) in *.
    assert (HM : M <= 1) by (destruct M4 as [-> | [-> | ->]]; lra).
    assert (Hm : 0 <= m) by (destruct m4 as [-> | [-> | ->]]; lra).
    destruct (Qeq_dec M m) as [E | _]; [contradiction |]. cbn [fst snd].
    assert (Hd : 0 < M - m).
    { destruct (Qlt_le_dec m M); [lra | exfalso; apply N; lra]. }
    destruct (Qlt_le_dec (1 / 2) ((M + m) / 2)).
    + apply Qle_shift_div_r; lra.
    + apply Qle_shift_div_r; lra.
Qed.

Lemma pOf_qOf_range (s l : Q) :
  0 <= s -> s <= 1 -> 0 <= l -> l <= 1 -> 0 <= pOf s l /\ qOf s l <= 1.
Proof.
  intros Hs0 Hs1 Hl0 Hl1. unfold pOf, qOf.
  destruct (Qlt_le_dec l (1 / 2)); split; arith.
Qed.

Lemma hslToRgb_range (h s l : Q) :
  0 <= h -> h < 1 -> 0 <= s -> s <= 1 -> 0 <= l -> l <= 1 ->
  let '(newR, newG, newB) := hslToRgb h s l in
  unit_interval newR /\ unit_interval newG /\ unit_interval newB.
Proof.
  intros Hh0 Hh1 Hs0 Hs1 Hl0 Hl1. unfold hslToRgb, unit_interval.
  destruct (Qeq_dec s 0) as [E | N]; [repeat split; assumption |].
  fold (qOf s l). fold (pOf s l).
  destruct (pOf_qOf_range s l Hs0 Hs1 Hl0 Hl1) as [Hp Hq].
  pose proof (pOf_le_qOf s l Hs0 Hl0 Hl1) as Hpq.
  destruct (hueToRgb_between (pOf s l) (qOf s l) (h + 1 / 3) Hpq) as [R1 R2];
    [qconst; lra | qconst; lra |].
  destruct (hueToRgb_between (pOf s l) (qOf s l) h Hpq) as [G1 G2]; [lra | lra |].
  destruct (hueToRgb_between (pOf s l) (qOf s l) (h - 1 / 3) Hpq) as [B1 B2];
    [qconst; lra | qconst; lra |].
  repeat split; lra.
Qed.

Lemma toHex_unit (c : Q) :
  0 <= c -> c <= 1 ->
  (0 <= Math_round (c * 255) <= 255)%Z
  /\ toHex c = hex2 (Math_round (c * 255))
  /\ nearest (c * 255) (Math_round (c * 255)).
Proof.
  intros H0 H1.
  assert (Hn : (0 <= Math_round (c * 255) <= 255)%Z).
  { apply Math_round_range.
    - change (inject_Z 0) with 0. lra.
    - change (inject_Z 255) with 255. lra. }
  split; [exact Hn |]. split; [apply toHex_hex2; exact Hn |].
  destruct (Math_round_near (c * 255)) as [A B]. split; [exact A |].
  apply Qlt_le_weak. exact B.
Qed.

Lemma channelValue_hex2 (n : Z) :
  (0 <= n <= 255)%Z ->
  channelValue (nth (Z.to_nat (n / 16)) lowerDigits "?"%char)
               (nth (Z.to_nat (n mod 16)) lowerDigits "?"%char) = Some n.
Proof.
  intro H. apply bytes_complete in H.
  assert (A : forallb (fun k =>
                match channelValue (nth (Z.to_nat (k / 16)) lowerDigits "?"%char)
                                   (nth (Z.to_nat (k mod 16)) lowerDigits "?"%char) with
                | Some m => Z.eqb m k
                | None => false
                end) bytes = true) by (vm_compute; reflexivity).
  rewrite forallb_forall in A. specialize (A n H).
  destruct (channelValue _ _) as [m |]; [| discriminate A].
  apply Z.eqb_eq in A. now subst m.
Qed.

Lemma colorValue_hex2 (a b c : Z) :
  (0 <= a <= 255)%Z -> (0 <= b <= 255)%Z -> (0 <= c <= 255)%Z ->
  colorValue (String "#" (hex2 a ++ hex2 b ++ hex2 c)) = Some (a, b, c).
Proof.
  intros Ha Hb Hc. unfold hex2. cbn [append colorValue bodyValue].
  rewrite (channelValue_hex2 a Ha), (channelValue_hex2 b Hb), (channelValue_hex2 c Hc).
  reflexivity.
Qed.

Lemma channel_unit (v : Z) : (0 <= v <= 255)%Z -> 0 <= inject_Z v / 255 <= 1.
Proof.
  intros [H0 H1]. rewrite Zle_Qle in H0, H1.
  change (inject_Z 0) with 0 in H0. change (inject_Z 255) with 255 in H1.
  set (x := inject_Z v) in *. qconst. split; lra.
Qed.

(** *** The HSL coordinates the code computes are those of the definition *)

Lemma largest_eq (r g b : Q) : Math_max3 r g b == largest r g b.
Proof.
  apply Math_max3_eq; unfold largest.
  - apply Q.le_max_l.
  - eapply Qle_trans; [apply (Q.le_max_l g b) | apply Q.le_max_r].
  - eapply Qle_trans; [apply (Q.le_max_r g b) | apply Q.le_max_r].
  - destruct (Q.max_spec r (Qmax g b)) as [[_ E] | [_ E]];
      [destruct (Q.max_spec g b) as [[_ F] | [_ F]] |].
    + right. right. rewrite E, F. reflexivity.
    + right. left. rewrite E, F. reflexivity.
    + left. rewrite E. reflexivity.
Qed.

Lemma smallest_eq (r g b : Q) : Math_min3 r g b == smallest r g b.
Proof.
  apply Math_min3_eq; unfold smallest.
  - apply Q.le_min_l.
  - eapply Qle_trans; [apply Q.le_min_r | apply (Q.le_min_l g b)].
  - eapply Qle_trans; [apply Q.le_min_r | apply (Q.le_min_r g b)].
  - destruct (Q.min_spec r (Qmin g b)) as [[_ E] | [_ E]];
      [| destruct (Q.min_spec g b) as [[_ F] | [_ F]]].
    + left. rewrite E. reflexivity.
    + right. left. rewrite E, F. reflexivity.
    + right. right. rewrite E, F. reflexivity.
Qed.

Lemma lightOf_lightness (r g b : Q) : lightOf r g b == lightness r g b.
Proof.
  unfold lightness.
  apply lightOf_eq; [apply largest_eq | apply smallest_eq].
Qed.

Lemma Qfloor_unique (y : Q) (k : Z) :
  inject_Z k <= y -> y < inject_Z k + 1 -> Qfloor y = k.
Proof.
  intros H0 H1.
  pose proof (Qfloor_le y) as A. pose proof (Qlt_floor y) as B.
  rewrite inject_Z_plus in B. change (inject_Z 1) with 1 in B.
  assert (C : inject_Z (Qfloor y) < inject_Z (k + 1)).
  { rewrite inject_Z_plus. change (inject_Z 1) with 1. lra. }
  assert (D : inject_Z k < inject_Z (Qfloor y + 1)).
  { rewrite inject_Z_plus. change (inject_Z 1) with 1. lra. }
  rewrite <- Zlt_Qlt in C, D. lia.
Qed.

Lemma mod6_turn (x : Q) : 0 <= x -> x < 6 -> mod6 x == x.
Proof.
  intros H0 H1. unfold mod6.
  rewrite (Qfloor_unique (x / 6) 0).
  - change (inject_Z 0) with 0. ring.
  - change (inject_Z 0) with 0. qconst. lra.
  - change (inject_Z 0) with 0. qconst. lra.
Qed.

Lemma mod6_negative (x : Q) : -6 <= x -> x < 0 -> mod6 x == x + 6.
Proof.
  intros H0 H1. unfold mod6.
  rewrite (Qfloor_unique (x / 6) (-1)).
  - change (inject_Z (-1)) with (-1). ring.
  - change (inject_Z (-1)) with (-1). qconst. lra.
  - change (inject_Z (-1)) with (-1). qconst. lra.
Qed.

Lemma hueOf_hue (r g b : Q) : hueOf r g b == hue r g b.
Proof.
  unfold hueOf, rgbToHsl, hue, chroma.
  pose proof (largest_eq r g b) as EM. pose proof (smallest_eq r g b) as Em.
  destruct (Math_max3_bounds r g b) as (M1 & M2 & M3 & M4).
  destruct (Math_min3_bounds r g b) as (m1 & m2 & m3 & m4).
  set (M := Math_max3 r g b) in *. set (m := Math_min3 r g b) in *.
  set (M' := largest r g b) in *. set (m' := smallest r g b) in *.
  destruct (Qeq_dec M m) as [E | N]; destruct (Qeq_dec (M' - m') 0) as [E' | N'];
    cbn [fst]; try reflexivity;
    try (exfalso; apply N'; lra); try (exfalso; apply N; lra).
  assert (Hd : 0 < M - m).
  { destruct (Qlt_le_dec m M); [lra | exfalso; apply N; lra]. }
  assert (Ed : M' - m' == M - m) by lra.
  destruct (Qeq_dec M r) as [Er | Nr]; destruct (Qeq_dec M' r) as [Er' | Nr'];
    try (exfalso; lra).
  - assert (X : (g - b) / (M' - m') == (g - b) / (M - m)) by (rewrite Ed; reflexivity).
    destruct (quotient_bounds (g - b) (M - m) Hd) as [Q1 Q2]; try lra.
    destruct (quotient_sign (g - b) (M - m) Hd) as [S1 S2].
    set (x' := (g - b) / (M' - m')) in *. set (x := (g - b) / (M - m)) in *.
    destruct (Qlt_le_dec g b) as [L | L].
    + assert (X0 : x < 0) by (apply S2; lra).
      rewrite mod6_negative by lra. rewrite X. reflexivity.
    + assert (X0 : 0 <= x) by (apply S1; lra).
      rewrite mod6_turn by lra. rewrite X. field.
  - destruct (Qeq_dec M g) as [Eg | Ng]; destruct (Qeq_dec M' g) as [Eg' | Ng'];
      try (exfalso; lra).
    + rewrite Ed. reflexivity.
    + destruct (Qeq_dec M b) as [Eb | Nb].
      * rewrite Ed. reflexivity.
      * exfalso. destruct M4 as [A | [A | A]]; rewrite A in *;
          [apply Nr | apply Ng | apply Nb]; reflexivity.
Qed.

Lemma satOf_saturation (r g b : Q) :
  0 <= r <= 1 -> 0 <= g <= 1 -> 0 <= b <= 1 -> satOf r g b == saturation r g b.
Proof.
  intros Hr Hg Hb. unfold satOf, rgbToHsl, saturation, lightness, chroma.
  pose proof (largest_eq r g b) as EM. pose proof (smallest_eq r g b) as Em.
  destruct (Math_max3_bounds r g b) as (M1 & M2 & M3 & M4).
  destruct (Math_min3_bounds r g b) as (m1 & m2 & m3 & m4).
  set (M := Math_max3 r g b) in *. set (m := Math_min3 r g b) in *.
  set (M' := largest r g b) in *. set (m' := smallest r g b) in *.
  assert (HM : M <= 1) by (destruct M4 as [-> | [-> | ->]]; lra).
  assert (Hm : 0 <= m) by (destruct m4 as [-> | [-> | ->]]; lra).
  assert (EL : (M' + m') / 2 == (M + m) / 2) by (rewrite EM, Em; reflexivity).
  destruct (Qeq_dec ((M' + m') / 2) 0) as [L0 | L0];
    [| destruct (Qeq_dec ((M' + m') / 2) 1) as [L1 | L1]].
  - destruct (Qeq_dec M m) as [E | N]; [reflexivity |].
    exfalso. apply N. rewrite EL in L0. revert L0. qconst. lra.
  - destruct (Qeq_dec M m) as [E | N]; [reflexivity |].
    exfalso. apply N. rewrite EL in L1. revert L1. qconst. lra.
  - destruct (Qeq_dec M m) as [E | N]; cbn [fst snd].
    + assert (Z : M' - m' == 0) by lra. rewrite Z. unfold Qdiv. ring.
    + assert (Hd : 0 < M - m).
      { destruct (Qlt_le_dec m M); [lra | exfalso; apply N; lra]. }
      assert (Ed : M' - m' == M - m) by lra.
      destruct (Qlt_le_dec (1 / 2) ((M + m) / 2)) as [Hhi | Hlo].
      * assert (A : 1 - Qabs (2 * ((M' + m') / 2) - 1) == 2 - M - m).
        { rewrite Qabs_pos; [rewrite EL; field |].
          rewrite EL. revert Hhi. qconst. lra. }
        rewrite A, Ed. reflexivity.
      * assert (A : 1 - Qabs (2 * ((M' + m') / 2) - 1) == M + m).
        { rewrite Qabs_neg; [rewrite EL; field |].
          rewrite EL. revert Hlo. qconst. lra. }
        rewrite A, Ed. reflexivity.
Qed.

(** C6, as the code has it.  For a valid colour and a shade between 0
    and 100 the result is a valid colour, each of whose channels is
    within half a level of 255 times the channel of one exact colour:
    the colour whose lightness is [shade / 100], whatever the lightness
    of the given colour, and whose hue and saturation, for a shade
    strictly between 0 and 100, are those of the given colour. *)
Theorem adjust_keeps_hue_saturation (hexColor : string) (shade : Q) (r g b : Z) :
  colorValue hexColor = Some (r, g, b) ->
  0 <= shade -> shade <= 100 ->
  exists (newR newG newB : Q) (nR nG nB : Z),
    colorValue (adjustColorBrightness hexColor shade) = Some (nR, nG, nB)
    /\ nearest (newR * 255) nR /\ nearest (newG * 255) nG /\ nearest (newB * 255) nB
    /\ unit_interval newR /\ unit_interval newG /\ unit_interval newB
    /\ lightness newR newG newB == shade / 100
    /\ (0 < shade -> shade < 100 ->
        hue newR newG newB
        == hue (inject_Z r / 255) (inject_Z g / 255) (inject_Z b / 255)
        /\ saturation newR newG newB
           == saturation (inject_Z r / 255) (inject_Z g / 255) (inject_Z b / 255)).
Proof.
  intros Hv H0 H100.
  rewrite (adjust_valid hexColor shade r g b Hv).
  assert (Hb : (0 <= r <= 255)%Z /\ (0 <= g <= 255)%Z /\ (0 <= b <= 255)%Z).
  { destruct (colorValue_cases hexColor (r, g, b) Hv) as [[body [_ Hb]] | [_ Hb]];
      apply bodyValue_range in Hb; exact Hb. }
  destruct Hb as (Hr & Hg & Hb).
  apply channel_unit in Hr. apply channel_unit in Hg. apply channel_unit in Hb.
  set (R := inject_Z r / 255) in *. set (G := inject_Z g / 255) in *.
  set (B := inject_Z b / 255) in *.
  assert (Hl0 : 0 <= shade / 100) by (qconst; lra).
  assert (Hl1 : shade / 100 <= 1) by (qconst; lra).
  pose proof (newChannels_hsl R G B (shade / 100) Hr Hg Hb Hl0 Hl1) as Hhsl.
  destruct (hueOf_range R G B) as [Hh0 Hh1].
  destruct (satOf_le_one R G B Hr Hg Hb) as [Hs0 Hs1].
  pose proof (hslToRgb_range (hueOf R G B) (satOf R G B) (shade / 100)
                Hh0 Hh1 Hs0 Hs1 Hl0 Hl1) as Hrange.
  pose proof (hueOf_hue R G B) as EH. pose proof (satOf_saturation R G B Hr Hg Hb) as ES.
  unfold newChannels.
  unfold hueOf, satOf in Hhsl, Hrange, EH, ES |- * .
  destruct (rgbToHsl R G B) as [[h s] l0]; cbn [fst snd] in *.
  destruct (hslToRgb h s (shade / 100)) as [[newR newG] newB].
  destruct Hrange as (UR & UG & UB).
  destruct (toHex_unit newR (proj1 UR) (proj2 UR)) as (NR & -> & ER).
  destruct (toHex_unit newG (proj1 UG) (proj2 UG)) as (NG & -> & EG).
  destruct (toHex_unit newB (proj1 UB) (proj2 UB)) as (NB & -> & EB).
  destruct Hhsl as [HL HHS].
  exists newR, newG, newB.
  exists (Math_round (newR * 255)), (Math_round (newG * 255)), (Math_round (newB * 255)).
  split; [apply colorValue_hex2; assumption |].
  repeat (split; [assumption |]).
  split; [rewrite <- lightOf_lightness; exact HL |].
  intros Hlo Hhi.
  destruct HHS as [A1 A2]; [qconst; lra | qconst; lra |].
  rewrite <- hueOf_hue, <- (satOf_saturation newR newG newB UR UG UB), <- EH, <- ES.
  split; assumption.
Qed.

Lemma adjust_keeps_hue_saturation_witness :
  exists (newR newG newB : Q) (nR nG nB : Z),
    colorValue (adjustColorBrightness "#8B4513" 50) = Some (nR, nG, nB)
    /\ nearest (newR * 255) nR /\ nearest (newG * 255) nG /\ nearest (newB * 255) nB
    /\ lightness newR newG newB == 50 / 100
    /\ hue newR newG newB == hue (139 / 255) (69 / 255) (19 / 255)
    /\ saturation newR newG newB == saturation (139 / 255) (69 / 255) (19 / 255).
Proof.
  assert (Hv : colorValue "#8B4513" = Some (139, 69, 19)%Z) by reflexivity.
  assert (H0 : 0 <= 50) by (unfold Qle; simpl; lia).
  assert (H1 : 50 <= 100) by (unfold Qle; simpl; lia).
  assert (H2 : 0 < 50) by reflexivity.
  assert (H3 : 50 < 100) by reflexivity.
  destruct (adjust_keeps_hue_saturation "#8B4513" 50 139 69 19 Hv H0 H1)
    as (newR & newG & newB & nR & nG & nB & A & NR & NG & NB & _ & _ & _ & L & HS).
  destruct (HS H2 H3) as [Hh Hs].
  exists newR, newG, newB, nR, nG, nB.
  exact (conj A (conj NR (conj NG (conj NB (conj L (conj Hh Hs)))))).
Defined.

(** C6, as stated, fails at the ends of the shade range: pure green at
    shade 0 comes out black, whose hue and saturation are 0, while green
    has hue 1/3 and saturation 1; and it fails for the printed channels
    of a nearly grey colour, whose hue is lost by rounding. *)
Lemma adjust_hue_counterexample :
  colorValue "#00ff00" = Some (0, 255, 0)%Z
  /\ adjustColorBrightness "#00ff00" 0 = "#000000"%string
  /\ colorValue "#000000" = Some (0, 0, 0)%Z
  /\ hue (0 / 255) (255 / 255) (0 / 255) == 1 / 3
  /\ saturation (0 / 255) (255 / 255) (0 / 255) == 1
  /\ hue (0 / 255) (0 / 255) (0 / 255) == 0
  /\ saturation (0 / 255) (0 / 255) (0 / 255) == 0
  /\ adjustColorBrightness "#7f817f" 1 = "#030303"%string
  /\ hue (127 / 255) (129 / 255) (127 / 255) == 1 / 3
  /\ hue (3 / 255) (3 / 255) (3 / 255) == 0.
Proof.
  repeat split; vm_compute; reflexivity.
Qed.

End ColorProps.

(* ================================================================== *)
(** ** Properties of the room shell and of the builders *)

Module SceneProps.

Import JS Color Three Furniture RoomShell Scene Spec.
Open Scope Q_scope.
Open Scope string_scope.

Lemma orNum_zero (v d : Q) : v == 0 -> orNum (Some v) d = d.
Proof.
  intro H. unfold orNum. destruct (Qeq_dec v 0) as [_ | Hne]; [reflexivity |].
  contradiction.
Qed.

Lemma orNum_default (d : Q) : orNum (Some d) d = d.
Proof. unfold orNum. destruct (Qeq_dec d 0); reflexivity. Qed.

Lemma orNum_nonzero (v d : Q) : ~ v == 0 -> orNum (Some v) d = v.
Proof.
  intro H. unfold orNum. destruct (Qeq_dec v 0) as [He | _]; [contradiction |].
  reflexivity.
Qed.

(** C9. For a room with a positive height, the first surface of the
    shell, the floor, lies at [y = -height / 2] and faces up, and the
    second, the ceiling, lies at [y = height / 2] and faces down. *)
Theorem room_floor_ceiling (room : RoomSpec) (h : Q) :
  room.(height) = Some h -> 0 < h ->
  exists floor ceiling walls,
    childrenOf (Room room) = floor :: ceiling :: walls
    /\ vx (positionOf floor) == 0 /\ vy (positionOf floor) == - (h / 2)
    /\ vz (positionOf floor) == 0 /\ facingOf floor = Some up
    /\ vx (positionOf ceiling) == 0 /\ vy (positionOf ceiling) == h / 2
    /\ vz (positionOf ceiling) == 0 /\ facingOf ceiling = Some down
    /\ List.length walls = 4%nat.
Proof.
  intros Hh Hpos. unfold Room. rewrite Hh.
  rewrite orNum_nonzero by lra.
  simpl childrenOf. do 3 eexists. split; [reflexivity |].
  unfold surface, positionOf, facingOf, vx, vy, vz. simpl fst. simpl snd.
  repeat split; try reflexivity. field.
Qed.

Lemma room_floor_ceiling_witness :
  exists floor ceiling walls,
    childrenOf (Room (mkRoom (Some 10) (Some 5) (Some 14) None None))
      = floor :: ceiling :: walls
    /\ vy (positionOf floor) == - (5 / 2) /\ facingOf floor = Some up
    /\ vy (positionOf ceiling) == 5 / 2 /\ facingOf ceiling = Some down.
Proof.
  destruct (room_floor_ceiling (mkRoom (Some 10) (Some 5) (Some 14) None None) 5)
    as (f & c & w & H & _ & Hf & _ & Hfu & _ & Hc & _ & Hcd & _);
    [reflexivity | reflexivity |].
  exists f, c, w. repeat split; assumption.
Defined.

(** *** Falsy fields *)

Lemma registry_cases (P : string -> (Item -> Q -> Object3D) -> Q -> list Solid -> Prop) :
  P "chair" Chair 50 [prism; prism; cylinder; cylinder; cylinder; cylinder] ->
  P "table" Table 50 [prism; cylinder; cylinder; cylinder; cylinder] ->
  P "sofa" Sofa 30 [prism; prism; prism; prism] ->
  P "bookshelf" Bookshelf 50 [prism; prism; prism] ->
  P "tvstand" TVStand 50 [prism; prism] ->
  P "bed" Bed 30 [prism; prism; cylinder; cylinder; cylinder; cylinder] ->
  P "lamp" Lamp 70 [cylinder; cone; sphere] ->
  forall tag build dflt parts,
    In (tag, build, dflt, parts) registry -> P tag build dflt parts.
Proof.
  intros H1 H2 H3 H4 H5 H6 H7 tag build dflt parts Hin.
  unfold registry in Hin. simpl In in Hin.
  repeat (destruct Hin as [Hin | Hin];
          [injection Hin as <- <- <- <-; assumption |]).
  contradiction.
Qed.

Lemma zero_shade_builders (item : Item) (rh v : Q) :
  v == 0 ->
  forall tag build dflt parts, In (tag, build, dflt, parts) registry ->
    build (withShade item (Some v)) rh = build (withShade item None) rh
    /\ build (withShade item (Some v)) rh = build (withShade item (Some dflt)) rh.
Proof.
  intro Hv. apply registry_cases; builder_fields;
    rewrite (orNum_zero v _ Hv), orNum_default; split; reflexivity.
Qed.

Lemma zero_scale_builders (item : Item) (rh v : Q) :
  v == 0 ->
  forall tag build dflt parts, In (tag, build, dflt, parts) registry ->
    build (withScale item (Some v)) rh = build (withScale item None) rh
    /\ build (withScale item (Some v)) rh = build (withScale item (Some 1)) rh.
Proof.
  intro Hv. apply registry_cases; builder_fields;
    rewrite (orNum_zero v _ Hv), orNum_default; split; reflexivity.
Qed.

Lemma furnitureGroup_ext (rh : Q) (a b : Item) :
  a.(id) = b.(id) -> a.(type) = b.(type) ->
  (forall tag build dflt parts, In (tag, build, dflt, parts) registry ->
     build a rh = build b rh) ->
  furnitureGroup rh a = furnitureGroup rh b.
Proof.
  intros Hid Hty Hb. unfold furnitureGroup. rewrite Hid, Hty.
  rewrite (Hb "chair" Chair 50 _ ltac:(listed)).
  rewrite (Hb "table" Table 50 _ ltac:(listed)).
  rewrite (Hb "sofa" Sofa 30 _ ltac:(listed)).
  rewrite (Hb "bookshelf" Bookshelf 50 _ ltac:(listed)).
  rewrite (Hb "tvstand" TVStand 50 _ ltac:(listed)).
  rewrite (Hb "bed" Bed 30 _ ltac:(listed)).
  rewrite (Hb "lamp" Lamp 70 _ ltac:(listed)).
  reflexivity.
Qed.

(** C10. In every builder a shade equal to 0 is rendered exactly as a
    missing shade, that is with the default shade of the type (50 for
    chair, table, bookshelf and TV stand, 30 for sofa and bed, 70 for
    lamp), and a scale equal to 0 exactly as a missing scale, that is
    with scale 1; the groups [Scene] renders for such descriptors are
    equal as well. *)
Theorem zero_field_as_missing (item : Item) (rh v : Q) :
  v == 0 ->
  (forall tag build dflt parts, In (tag, build, dflt, parts) registry ->
     build (withShade item (Some v)) rh = build (withShade item None) rh
     /\ build (withShade item (Some v)) rh = build (withShade item (Some dflt)) rh
     /\ build (withScale item (Some v)) rh = build (withScale item None) rh
     /\ build (withScale item (Some v)) rh = build (withScale item (Some 1)) rh)
  /\ furnitureGroup rh (withShade item (Some v)) = furnitureGroup rh (withShade item None)
  /\ furnitureGroup rh (withScale item (Some v)) = furnitureGroup rh (withScale item None).
Proof.
  intro Hv. split; [| split].
  - intros tag build dflt parts Hin.
    destruct (zero_shade_builders item rh v Hv tag build dflt parts Hin) as [A B].
    destruct (zero_scale_builders item rh v Hv tag build dflt parts Hin) as [C D].
    tauto.
  - apply furnitureGroup_ext; [reflexivity | reflexivity |].
    intros tag build dflt parts Hin.
    apply (zero_shade_builders item rh v Hv tag build dflt parts Hin).
  - apply furnitureGroup_ext; [reflexivity | reflexivity |].
    intros tag build dflt parts Hin.
    apply (zero_scale_builders item rh v Hv tag build dflt parts Hin).
Qed.

Lemma zero_field_as_missing_witness :
  let item := mkItem "s1" "sofa" (Some 2) (Some 3) (Some 2) (Some "#4B0082") (Some 80) in
  Sofa (withShade item (Some 0)) 5 = Sofa (withShade item None) 5
  /\ Sofa (withShade item (Some 0)) 5 = Sofa (withShade item (Some 30)) 5
  /\ Sofa (withScale item (Some 0)) 5 = Sofa (withScale item None) 5
  /\ Sofa (withScale item (Some 0)) 5 = Sofa (withScale item (Some 1)) 5.
Proof.
  intro item.
  assert (H0 : 0 == 0) by reflexivity.
  exact (proj1 (zero_field_as_missing item 5 0 H0) "sofa" Sofa 30
           [prism; prism; prism; prism]
           ltac:(listed)).
Defined.

(** *** The orthographic extent *)

(** C8, in the code.  For a room of positive width [W] and depth [D]
    the camera of the 2D view is orthographic, its frustum is bounded on
    the four sides by the extent [max(W, D) * 1.5], and its zoom is 50:
    what three.js shows of it is half a width and half a height of a
    fiftieth of the extent, less than the extent.  For [W = 10] and
    [D = 14] the extent is 21 and the view reaches 21/50 from its
    centre. *)
Theorem top_down_visible_extent (W D : Q) :
  0 < W -> 0 < D ->
  exists c,
    Render.sceneCamera "2D" W D = Render.orthographic c
    /\ right c == Qmax W D * 1.5 /\ left c == - (Qmax W D * 1.5)
    /\ top c == Qmax W D * 1.5 /\ bottom c == - (Qmax W D * 1.5)
    /\ ortho_zoom c == 50
    /\ Render.dx c == Qmax W D * 1.5 / 50
    /\ Render.dy c == Qmax W D * 1.5 / 50
    /\ Render.dx c < Qmax W D * 1.5
    /\ Render.dy c < Qmax W D * 1.5.
Proof.
  intros HW HD.
  assert (E : zoom W D == Qmax W D * 1.5).
  { unfold zoom, Math_max. destruct (Qlt_le_dec W D) as [Hlt | Hle].
    - rewrite Q.max_r by (apply Qlt_le_weak; exact Hlt). reflexivity.
    - rewrite Q.max_l by exact Hle. reflexivity. }
  assert (Hm : 0 < Qmax W D).
  { eapply Qlt_le_trans; [exact HW | apply Q.le_max_l]. }
  exists (orthographicCamera W D). split; [reflexivity |].
  unfold Render.dx, Render.dy, orthographicCamera.
  cbn [right left top bottom ortho_zoom].
  set (m := Qmax W D) in *. set (e := zoom W D) in *.
  change (2 * 50) with 100.
  assert (X : (e - - e) / 100 == m * 1.5 / 50) by (rewrite E; field).
  split; [exact E |]. split; [rewrite E; reflexivity |].
  split; [exact E |]. split; [rewrite E; reflexivity |].
  split; [reflexivity |]. split; [exact X |]. split; [exact X |].
  split; rewrite X; qconst; lra.
Qed.

Lemma top_down_visible_extent_witness :
  exists c,
    Render.sceneCamera "2D" 10 14 = Render.orthographic c
    /\ right c == 21 /\ ortho_zoom c == 50
    /\ Render.dx c == 21 / 50 /\ Render.dy c == 21 / 50
    /\ ~ Render.dx c == 21.
Proof.
  assert (HW : 0 < 10) by reflexivity.
  assert (HD : 0 < 14) by reflexivity.
  destruct (top_down_visible_extent 10 14 HW HD)
    as (c & Hc & R & _ & _ & _ & Z & X & Y & L & _).
  exists c. split; [exact Hc |].
  split; [rewrite R; reflexivity |]. split; [exact Z |].
  split; [rewrite X; reflexivity |]. split; [rewrite Y; reflexivity |].
  intro A. rewrite A in L. revert L. vm_compute. discriminate.
Defined.

(** *** Dispatch on the type tag *)

Lemma registry_tags :
  tags = ["chair"; "table"; "sofa"; "bookshelf"; "tvstand"; "bed"; "lamp"].
Proof. reflexivity. Qed.

Lemma furnitureGroup_registered (rh : Q) (item : Item) :
  forall tag build dflt parts, In (tag, build, dflt, parts) registry ->
    item.(type) = tag ->
    furnitureGroup rh item = group (Some item.(id)) (0, 0, 0) 1 [build item rh]
    /\ List.map solidOf (childrenOf (build item rh)) = List.map Some parts
    /\ userData_id (build item rh) = None.
Proof.
  apply (registry_cases (fun tag build dflt parts =>
    item.(type) = tag ->
    furnitureGroup rh item = group (Some item.(id)) (0, 0, 0) 1 [build item rh]
    /\ List.map solidOf (childrenOf (build item rh)) = List.map Some parts
    /\ userData_id (build item rh) = None));
    intro Hty; unfold furnitureGroup; rewrite Hty;
    (split; [reflexivity | split; reflexivity]).
Qed.

Lemma furnitureGroup_unregistered (rh : Q) (item : Item) :
  ~ In item.(type) tags ->
  furnitureGroup rh item = group (Some item.(id)) (0, 0, 0) 1 [].
Proof.
  intro Hn. unfold furnitureGroup.
  assert (E : forall tag, In tag tags -> (item.(type) =? tag) = false).
  { intros tag Hin. apply String.eqb_neq. intro Heq. apply Hn. now rewrite Heq. }
  rewrite registry_tags in E.
  rewrite !E by (simpl; tauto). reflexivity.
Qed.

(** C4, as the code has it.  A descriptor whose type is one of the seven
    tags chair, table, sofa, bookshelf, tvstand, bed, lamp is rendered
    as its tagged group holding exactly the composition of that type's
    builder, with the documented parts in order; a descriptor with any
    other type (the spelling tv-stand included) is rendered as an empty
    tagged group, and the groups of the descriptors before and after it
    are rendered as without it. *)
Theorem dispatch_by_tag (rh : Q) (item : Item) (before after : list Item) :
  (forall tag build dflt parts, In (tag, build, dflt, parts) registry ->
     item.(type) = tag ->
     furnitureGroup rh item = group (Some item.(id)) (0, 0, 0) 1 [build item rh]
     /\ List.map solidOf (childrenOf (build item rh)) = List.map Some parts)
  /\ (~ In item.(type) tags ->
      furnitureGroup rh item = group (Some item.(id)) (0, 0, 0) 1 [])
  /\ furnitureGroups rh (before ++ item :: after)%list
     = (furnitureGroups rh before
        ++ furnitureGroup rh item :: furnitureGroups rh after)%list.
Proof.
  split; [| split].
  - intros tag build dflt parts Hin Hty.
    destruct (furnitureGroup_registered rh item tag build dflt parts Hin Hty)
      as (A & B & _). split; assumption.
  - apply furnitureGroup_unregistered.
  - unfold furnitureGroups. rewrite map_app. reflexivity.
Qed.

Lemma dispatch_by_tag_witness :
  let tv := mkItem "t1" "tvstand" None None None None None in
  let odd := mkItem "o1" "wardrobe" None None None None None in
  furnitureGroup 5 tv = group (Some "t1") (0, 0, 0) 1 [TVStand tv 5]
  /\ List.map solidOf (childrenOf (TVStand tv 5)) = [Some prism; Some prism]
  /\ furnitureGroup 5 odd = group (Some "o1") (0, 0, 0) 1 [].
Proof.
  intros tv odd.
  destruct (proj1 (dispatch_by_tag 5 tv [] []) "tvstand" TVStand 50
              [prism; prism] ltac:(listed)
              eq_refl) as [A B].
  assert (Hn : ~ In odd.(type) tags).
  { simpl. intros [H | [H | [H | [H | [H | [H | [H | H]]]]]]];
      try discriminate H; exact H. }
  pose proof (proj1 (proj2 (dispatch_by_tag 5 odd [] [])) Hn) as C.
  split; [exact A | split; [exact B | exact C]].
Defined.

(** C4, as stated, fails for the tag tv-stand: such a descriptor is
    rendered without any composition. *)
Lemma dispatch_tv_stand_counterexample :
  let item := mkItem "t1" "tv-stand" None None None None None in
  childrenOf (furnitureGroup 5 item) = []
  /\ childrenOf (furnitureGroup 5 item) <> [TVStand item 5].
Proof.
  intro item. split; [reflexivity | discriminate].
Qed.

(** *** View mode *)

(** C3, as the code has it.  Switching to the top-down view and back
    leaves the three gestures enabled, as the render asks for the free
    view, and the camera where [update()] of the controls puts it after
    the effect has set it at (10, 10, 10) looking at the origin; without
    controls the camera is left exactly there.  The pose of the camera
    before the switch has no part in the result. *)
Theorem view_round_trip {Orbit : Type} (update : Orbit -> Camera -> Orbit * Camera)
    (v : View) (o : Orbit) :
  controls (fst (roundTrip update v o))
  = option_map (fun _ => orbitControls "3D") (controls v)
  /\ orbitControls "3D" = mkControls true true true
  /\ (forall cam, roundTrip update (mkView cam (controls v)) o = roundTrip update v o)
  /\ match controls v with
     | Some _ =>
         camera (fst (roundTrip update v o))
         = snd (update (fst (update o (mkCamera (0, 10, 0) (0, 0, 0))))
                       (mkCamera (10, 10, 10) (0, 0, 0)))
     | None => camera (fst (roundTrip update v o)) = mkCamera (10, 10, 10) (0, 0, 0)
     end.
Proof.
  unfold roundTrip, viewModeEffect, orbitControls.
  change ("2D" =? "2D") with true. change ("3D" =? "2D") with false.
  change ("3D" =? "3D") with true. cbv iota.
  destruct (controls v) as [c |]; cbn [controls option_map].
  - destruct (update o (mkCamera (0, 10, 0) (0, 0, 0))) as [o1 c1]. cbn [controls fst].
    destruct (update o1 (mkCamera (10, 10, 10) (0, 0, 0))) as [o2 c2].
    repeat split; reflexivity.
  - repeat split; reflexivity.
Qed.

(** C3, as stated, fails.  Two free views that differ only in the pose
    of the camera, at (5, 5, 5) and at (6, 6, 6), come back from the
    round trip as one and the same view: whatever [update()] does, it
    cannot be that both have the pose they started with. *)
Lemma view_round_trip_counterexample :
  ~ exists (Orbit : Type) (update : Orbit -> Camera -> Orbit * Camera) (o : Orbit),
      camera (fst (roundTrip update (freeView (5, 5, 5)) o)) = camera (freeView (5, 5, 5))
      /\ camera (fst (roundTrip update (freeView (6, 6, 6)) o)) = camera (freeView (6, 6, 6)).
Proof.
  intros (Orbit & update & o & A & B).
  unfold roundTrip, viewModeEffect, freeView in A, B.
  change ("2D" =? "2D") with true in A, B. change ("3D" =? "2D") with false in A, B.
  cbv iota in A, B. cbn [controls] in A, B.
  destruct (update o (mkCamera (0, 10, 0) (0, 0, 0))) as [o1 c1]. cbn [controls] in A, B.
  destruct (update o1 (mkCamera (10, 10, 10) (0, 0, 0))) as [o2 c2].
  cbn [fst camera] in A, B. rewrite A in B. discriminate B.
Qed.

End SceneProps.

(* ================================================================== *)
(** ** Properties of the mouse handlers *)

Module PointerProps.

Import JS Color Three Furniture RoomShell Scene Spec SceneProps.
Open Scope Q_scope.
Open Scope string_scope.

(** *** Dragging *)

(** The plane of [Scene] holds the points at height [+roomHeight / 2]. *)
Lemma plane_points (H : Q) (p : Vec3) :
  distanceToPoint (plane H) p == 0 <-> vy p == H / 2.
Proof.
  unfold distanceToPoint, plane, dot, normal, constant, vx, vy, vz.
  cbn [fst snd]. qconst. split; intro E; lra.
Qed.

Lemma handleMouseMove_idle (H : Q) (ray : Ray) : handleMouseMove H None ray = [].
Proof. reflexivity. Qed.

(** Every call reports the selected index and the x and z of a point of
    the ray at height [+roomHeight / 2]. *)
Lemma handleMouseMove_reports (H : Q) (sel : option nat) (ray : Ray) (u : Update) :
  In u (handleMouseMove H sel ray) ->
  handleMouseMove H sel ray = [u]
  /\ sel = Some u.(index)
  /\ exists t, 0 <= t
       /\ u.(x) == vx ray.(origin) + vx ray.(direction) * t
       /\ u.(z) == vz ray.(origin) + vz ray.(direction) * t
       /\ vy ray.(origin) + vy ray.(direction) * t == H / 2.
Proof.
  unfold handleMouseMove, intersectPlane, distanceToPlane.
  destruct sel as [i |]; [| intros []].
  destruct (Qeq_dec (dot (normal (plane H)) (direction ray)) 0) as [Hpar | Hnp].
  - destruct (Qeq_dec (distanceToPoint (plane H) (origin ray)) 0) as [Hon | Hoff];
      [| intros []].
    intros [<- | []]. split; [reflexivity | split; [reflexivity |]].
    exists 0. cbn [x z index]. unfold vx, vy, vz. cbn [fst snd].
    apply plane_points in Hon.
    unfold plane, dot, normal, vx, vy, vz in Hpar. cbn [fst snd] in Hpar.
    unfold vy in Hon.
    repeat split; try lra.
  - match goal with
    | |- context [Qlt_le_dec ?t 0] => destruct (Qlt_le_dec t 0) as [Hneg | Hpos]
    end; [intros [] |].
    intros [<- | []]. split; [reflexivity | split; [reflexivity |]].
    eexists. split; [exact Hpos |]. cbn [x z index].
    unfold vx, vy, vz. cbn [fst snd].
    split; [reflexivity | split; [reflexivity |]].
    unfold plane, dot, normal, constant, vx, vy, vz in *. cbn [fst snd] in *.
    field. intro E. apply Hnp. rewrite E. ring.
Qed.

(** A ray parallel to the plane and not inside it makes no call. *)
Lemma handleMouseMove_parallel (H : Q) (sel : option nat) (ray : Ray) :
  vy ray.(direction) == 0 -> ~ vy ray.(origin) == H / 2 ->
  handleMouseMove H sel ray = [].
Proof.
  intros Hd Ho. destruct (handleMouseMove H sel ray) as [| u l] eqn:E; [reflexivity |].
  exfalso.
  destruct (handleMouseMove_reports H sel ray u) as (_ & _ & t & _ & _ & _ & Ht).
  - rewrite E. left. reflexivity.
  - apply Ho. rewrite <- Ht. rewrite Hd. ring.
Qed.

(** C1, at a failing input.  In a room of height 5 the plane used for
    dragging is [y = +5/2]: a ray from (0, 10, 0) with direction
    (3/5, -4/5, 0), which meets the floor [y = -5/2] at x = 75/8, makes
    the call report x = 45/8, where the ray crosses [y = +5/2]; and a
    ray from the origin pointing straight down, which meets the floor at
    (0, 0), makes no call. *)
Theorem drag_plane_not_floor :
  (forall p, distanceToPoint (plane 5) p == 0 <-> vy p == 5 / 2)
  /\ (let ray := mkRay (0, 10, 0) (3 / 5, - (4 / 5), 0) in
      (exists f, floorHit 5 ray = Some f /\ vx f == 75 / 8 /\ vz f == 0)
      /\ exists u, handleMouseMove 5 (Some 1%nat) ray = [u]
                   /\ u.(index) = 1%nat /\ u.(x) == 45 / 8 /\ u.(z) == 0)
  /\ (let ray := mkRay (0, 0, 0) (0, -1, 0) in
      (exists f, floorHit 5 ray = Some f /\ vx f == 0 /\ vz f == 0)
      /\ handleMouseMove 5 (Some 1%nat) ray = []).
Proof.
  split; [intro p; apply plane_points |].
  split.
  - split.
    + eexists. split; [vm_compute; reflexivity |]. split; reflexivity.
    + eexists. split; [vm_compute; reflexivity |].
      split; [reflexivity | split; reflexivity].
  - split.
    + eexists. split; [vm_compute; reflexivity |]. split; reflexivity.
    + vm_compute. reflexivity.
Qed.

(** *** Picking *)

Lemma builder_shape :
  forall tag build dflt parts, In (tag, build, dflt, parts) registry ->
  forall (item : Item) (rh : Q),
    exists pos sc ch, build item rh = group None pos sc ch /\ forallb isMesh ch = true.
Proof.
  apply (registry_cases (fun _ build _ _ =>
    forall (item : Item) (rh : Q),
      exists pos sc ch, build item rh = group None pos sc ch
                        /\ forallb isMesh ch = true));
    intros item rh; do 3 eexists; (split; [reflexivity | reflexivity]).
Qed.

(** Every child of a tagged group is a builder's group: it carries no id
    and holds meshes only. *)
Lemma furnitureGroup_children (rh : Q) (item : Item) (o : Object3D) :
  In o (childrenOf (furnitureGroup rh item)) ->
  exists pos sc ch, o = group None pos sc ch /\ forallb isMesh ch = true.
Proof.
  unfold furnitureGroup. cbn [childrenOf]. unfold andThen.
  rewrite !in_app_iff.
  intros [H | [H | [H | [H | [H | [H | H]]]]]];
    match type of H with
    | In _ (if ?c then _ else _) => destruct c; [| destruct H]
    end;
    (destruct H as [<- | []]).
  - apply (builder_shape "chair" Chair 50 _ ltac:(listed)).
  - apply (builder_shape "table" Table 50 _ ltac:(listed)).
  - apply (builder_shape "sofa" Sofa 30 _ ltac:(listed)).
  - apply (builder_shape "bookshelf" Bookshelf 50 _ ltac:(listed)).
  - apply (builder_shape "tvstand" TVStand 50 _ ltac:(listed)).
  - apply (builder_shape "bed" Bed 30 _ ltac:(listed)).
  - apply (builder_shape "lamp" Lamp 70 _ ltac:(listed)).
Qed.

Lemma nth_error_forallb {A : Type} (f : A -> bool) (l : list A) (n : nat) (a : A) :
  forallb f l = true -> nth_error l n = Some a -> f a = true.
Proof.
  intros Hall Hn. rewrite forallb_forall in Hall.
  apply Hall. apply (nth_error_In l n Hn).
Qed.

(** In the scene rendered from a furniture list, the parent of every
    mesh carries no id. *)
Lemma mesh_parent_untagged (rh : Q) (furniture : list Item)
  (path : list nat) (o : Object3D) :
  objectAt (furnitureGroups rh furniture) path = Some o ->
  isMesh o = true ->
  parent_userData_id (furnitureGroups rh furniture) path = None.
Proof.
  unfold parent_userData_id.
  destruct path as [| i [| j [| k [| l rest]]]]; try reflexivity.
  - (* a child of a tagged group is a group, not a mesh *)
    cbn [objectAt]. unfold furnitureGroups. rewrite nth_error_map.
    destruct (nth_error furniture i) as [item |]; cbn [option_map]; [| discriminate].
    destruct (nth_error (childrenOf (furnitureGroup rh item)) j) as [g |] eqn:Hg;
      [| discriminate].
    intros Ho Hm. injection Ho as <-.
    apply nth_error_In in Hg. apply furnitureGroup_children in Hg.
    destruct Hg as (pos & sc & ch & -> & _). discriminate Hm.
  - (* a mesh of a composition: its parent is the builder's group *)
    cbn [removelast objectAt]. unfold furnitureGroups. rewrite nth_error_map.
    destruct (nth_error furniture i) as [item |]; cbn [option_map]; [| reflexivity].
    destruct (nth_error (childrenOf (furnitureGroup rh item)) j) as [g |] eqn:Hg;
      [| reflexivity].
    intros _ _.
    apply nth_error_In in Hg. apply furnitureGroup_children in Hg.
    destruct Hg as (pos & sc & ch & -> & _). reflexivity.
  - (* nothing lies below a mesh *)
    cbn [objectAt]. unfold furnitureGroups. rewrite nth_error_map.
    destruct (nth_error furniture i) as [item |]; cbn [option_map]; [| discriminate].
    destruct (nth_error (childrenOf (furnitureGroup rh item)) j) as [g |] eqn:Hg;
      [| discriminate].
    apply nth_error_In in Hg. apply furnitureGroup_children in Hg.
    destruct Hg as (pos & sc & ch & -> & Hch). cbn [childrenOf].
    destruct (nth_error ch k) as [m |] eqn:Hm; [| discriminate].
    apply (nth_error_forallb isMesh ch k m Hch) in Hm.
    destruct m; [| discriminate Hm]. cbn [childrenOf].
    destruct l; discriminate.
Qed.

Lemma findIndex_none {A : Type} (pred : A -> bool) (l : list A) :
  (forall a, pred a = false) -> findIndex pred l = None.
Proof.
  intro H. induction l as [| a t IH]; [reflexivity |].
  cbn [findIndex]. rewrite H, IH. reflexivity.
Qed.

(** Whatever mesh of the rendered furniture the nearest intersection
    hits, [handleMouseDown] leaves the selection as it was. *)
Lemma handleMouseDown_unresolved (rh : Q) (furniture : list Item)
  (hit : Intersection) (others : list Intersection) (o : Object3D)
  (selected : option nat) :
  objectAt (furnitureGroups rh furniture) hit.(object) = Some o ->
  isMesh o = true ->
  handleMouseDown furniture (furnitureGroups rh furniture) (hit :: others) selected
  = selected.
Proof.
  intros Ho Hm. unfold handleMouseDown.
  rewrite (mesh_parent_untagged rh furniture _ o Ho Hm).
  rewrite findIndex_none by reflexivity. reflexivity.
Qed.

Lemma handleMouseDown_miss (furniture : list Item) (objects : list Object3D)
  (selected : option nat) :
  handleMouseDown furniture objects [] selected = None.
Proof. reflexivity. Qed.

(** From an empty selection no sequence of events on the rendered
    furniture selects anything or calls [onUpdateFurniture]. *)
Lemma run_never_drags (rh : Q) (furniture : list Item) (events : list Event) :
  Forall (wellFormed (furnitureGroups rh furniture)) events ->
  run rh furniture (furnitureGroups rh furniture) None events = (None, []).
Proof.
  induction 1 as [| e rest He _ IH]; [reflexivity |].
  cbn [run].
  assert (Hstep : step rh furniture (furnitureGroups rh furniture) None e = (None, [])).
  { destruct e as [[| hit others] | ray |]; try reflexivity.
    cbn [step]. destruct He as (o & Ho & Hm).
    rewrite (handleMouseDown_unresolved rh furniture hit others o None Ho Hm).
    reflexivity. }
  rewrite Hstep, IH. reflexivity.
Qed.

(** C2, at a failing input.  With the furniture list of chairs [a] at
    (0, 0) and [b] at (5, 0), a pointer-down whose only intersection is
    the seat of [b] leaves the selection empty instead of selecting
    index 1: the parent of the mesh hit is the builder's group, which
    carries no id, while the id sits on the group one level above; the
    pointer-move that follows makes no call. *)
Theorem pick_b_not_selected :
  let a := mkItem "a" "chair" (Some 0) (Some 0) None None None in
  let b := mkItem "b" "chair" (Some 5) (Some 0) None None None in
  let furniture := [a; b] in
  let objects := furnitureGroups 5 furniture in
  let hit := mkIntersection 12 [1; 0; 0]%nat in
  option_map solidOf (objectAt objects hit.(object)) = Some (Some prism)
  /\ parent_userData_id objects hit.(object) = None
  /\ option_map userData_id (objectAt objects [1%nat]) = Some (Some "b")
  /\ handleMouseDown furniture objects [hit] None = None
  /\ handleMouseMove 5 (handleMouseDown furniture objects [hit] None)
       (mkRay (2, 10, 3) (0, -1, 0)) = [].
Proof.
  intros a b furniture objects hit.
  repeat split; vm_compute; reflexivity.
Qed.

End PointerProps.

(* ================================================================== *)
(** ** Further properties of the colour adjustment *)

Module ColorMore.

Import JS Color Spec ColorProps.
Open Scope Q_scope.
Open Scope string_scope.

(** X1. For [p < q], [hueToRgb p q t] lies between [p] and [q] for every
    [t >= -1], and below [p] for every [t < -1]: the hue is wrapped by
    one turn only. *)
Theorem hueToRgb_range (p q t : Q) :
  p < q ->
  (-1 <= t -> p <= hueToRgb p q t /\ hueToRgb p q t <= q)
  /\ (t < -1 -> hueToRgb p q t < p).
Proof.
  intro Hpq. split; intro Ht.
  - cbv beta zeta delta [hueToRgb]. split_ifs; split; arith.
  - cbv beta zeta delta [hueToRgb]. split_ifs. arith.
Qed.

Lemma hueToRgb_range_witness :
  (0 <= hueToRgb 0 1 (1 / 4) /\ hueToRgb 0 1 (1 / 4) <= 1)
  /\ hueToRgb 0 1 (-2) < 0.
Proof.
  assert (H : 0 < 1) by reflexivity.
  destruct (hueToRgb_range 0 1 (1 / 4) H) as [A _].
  destruct (hueToRgb_range 0 1 (-2) H) as [_ B].
  split; [apply A | apply B]; qcmp.
Defined.

(** X2. Within one turn of the unit interval [hueToRgb] is periodic: for
    [-1 <= t < 0] it gives what it gives at [t + 1], and for [1 < t <=
    2] what it gives at [t - 1]. *)
Theorem hueToRgb_one_turn (p q t : Q) :
  (-1 <= t -> t < 0 -> hueToRgb p q t = hueToRgb p q (t + 1))
  /\ (1 < t -> t <= 2 -> hueToRgb p q t = hueToRgb p q (t - 1)).
Proof.
  split; intros H0 H1; cbv beta zeta delta [hueToRgb]; split_ifs; reflexivity.
Qed.


Lemma hueToRgb_one_turn_witness :
  hueToRgb 0 1 (- (1 / 3)) = hueToRgb 0 1 (- (1 / 3) + 1)
  /\ hueToRgb 0 1 (4 / 3) = hueToRgb 0 1 (4 / 3 - 1).
Proof.
  destruct (hueToRgb_one_turn 0 1 (- (1 / 3))) as [A _].
  destruct (hueToRgb_one_turn 0 1 (4 / 3)) as [_ B].
  split; [apply A | apply B]; qcmp.
Defined.

(** X3. Two valid strings that denote the same colour, with or without
    the leading [#] and in either letter case, are adjusted to the same
    result. *)
Theorem adjust_by_value (c1 c2 : string) (v : Z * Z * Z) (shade : Q) :
  colorValue c1 = Some v -> colorValue c2 = Some v ->
  adjustColorBrightness c1 shade = adjustColorBrightness c2 shade.
Proof.
  destruct v as [[r g] b]. intros H1 H2.
  rewrite (adjust_valid c1 shade r g b H1), (adjust_valid c2 shade r g b H2).
  reflexivity.
Qed.

Lemma adjust_by_value_witness :
  adjustColorBrightness "#8b4513" 40 = adjustColorBrightness "8B4513" 40.
Proof.
  apply (adjust_by_value "#8b4513" "8B4513" (139, 69, 19)%Z 40); reflexivity.
Defined.

(** Any shade: a grey comes out as three times the printed rounding of
    [shade / 100 * 255]. *)
Lemma adjust_grey (hexColor : string) (shade : Q) (v : Z) :
  colorValue hexColor = Some (v, v, v) ->
  adjustColorBrightness hexColor shade =
  String "#" (printed (Math_round (shade / 100 * 255))
             ++ printed (Math_round (shade / 100 * 255))
             ++ printed (Math_round (shade / 100 * 255))).
Proof.
  intro Hv. rewrite (adjust_valid hexColor shade v v v Hv). unfold newChannels.
  rewrite rgbToHsl_grey, hslToRgb_grey. reflexivity.
Qed.

Lemma round_shade_range (shade : Q) :
  0 <= shade -> shade <= 100 -> (0 <= Math_round (shade / 100 * 255) <= 255)%Z.
Proof.
  intros H0 H1. apply Math_round_range.
  - change (inject_Z 0) with 0. qconst. lra.
  - change (inject_Z 255) with 255. qconst. lra.
Qed.

(** X5. On a grey, a later shade replaces an earlier one: adjusting with
    a shade from 0 to 100 and then with any second shade gives what the
    second shade gives on the original. *)
Theorem grey_shade_overrides (hexColor : string) (s1 s2 : Q) (v : Z) :
  colorValue hexColor = Some (v, v, v) -> 0 <= s1 -> s1 <= 100 ->
  adjustColorBrightness (adjustColorBrightness hexColor s1) s2
  = adjustColorBrightness hexColor s2.
Proof.
  intros Hv H0 H1.
  pose proof (round_shade_range s1 H0 H1) as Hn.
  assert (Hout : colorValue (adjustColorBrightness hexColor s1)
                 = Some (Math_round (s1 / 100 * 255), Math_round (s1 / 100 * 255),
                         Math_round (s1 / 100 * 255))).
  { rewrite (adjust_grey hexColor s1 v Hv). rewrite (printed_hex2 _ Hn).
    apply colorValue_hex2; exact Hn. }
  rewrite (adjust_grey _ s2 _ Hout), (adjust_grey hexColor s2 v Hv). reflexivity.
Qed.

Lemma grey_shade_overrides_witness :
  adjustColorBrightness (adjustColorBrightness "#808080" 25) 75
  = adjustColorBrightness "#808080" 75.
Proof.
  apply (grey_shade_overrides "#808080" 25 75 128); [reflexivity | qcmp | qcmp].
Defined.


Lemma toHexDigits_length (fuel : nat) (n : Z) (acc : string) :
  (String.length acc < String.length (toHexDigits fuel n acc))%nat.
Proof.
  revert n acc. induction fuel as [| f IH]; intros n acc; cbn [toHexDigits].
  - cbn [String.length]. lia.
  - destruct (n / 16 =? 0)%Z.
    + cbn [String.length]. lia.
    + specialize (IH (n / 16)%Z (String (hexDigit (n mod 16)) acc)).
      cbn [String.length] in IH. lia.
Qed.

Lemma toString16_long (n : Z) :
  (255 < n)%Z -> (3 <= String.length (toString16 n))%nat.
Proof.
  intro H. unfold toString16.
  destruct (n <? 0)%Z eqn:E; [apply Z.ltb_lt in E; lia |].
  assert (Hlog : (8 <= Z.log2 n)%Z) by (apply (Z.log2_le_pow2 n 8); lia).
  destruct (Z.to_nat (Z.log2 n)) as [| [| f]] eqn:Ef; try lia.
  cbn [toHexDigits].
  assert (H1 : (n / 16 =? 0)%Z = false)
    by (apply Z.eqb_neq; intro E0; apply Z.div_small_iff in E0; lia).
  rewrite H1.
  assert (H2 : (n / 16 / 16 =? 0)%Z = false).
  { apply Z.eqb_neq. intro E0. apply Z.div_small_iff in E0; [| lia].
    assert (16 <= n / 16)%Z by (apply Z.div_le_lower_bound; lia). lia. }
  rewrite H2.
  match goal with |- (_ <= String.length (toHexDigits ?f ?m ?acc))%nat =>
    pose proof (toHexDigits_length f m acc) as L end.
  cbn [String.length] in L. lia.
Qed.

Lemma printed_long (n : Z) : (255 < n)%Z -> (3 <= String.length (printed n))%nat.
Proof.
  intro H. pose proof (toString16_long n H) as L. unfold printed.
  destruct (String.length (toString16 n) =? 1)%nat eqn:E.
  - apply Nat.eqb_eq in E. lia.
  - exact L.
Qed.

Lemma printed_negative (n : Z) :
  (n < 0)%Z -> exists rest, printed n = String "-" rest.
Proof.
  intro H. unfold printed, toString16.
  destruct (n <? 0)%Z eqn:E; [| apply Z.ltb_ge in E; lia].
  match goal with |- context [toHexDigits ?f ?m ?acc] =>
    pose proof (toHexDigits_length f m acc) as L;
    destruct (toHexDigits f m acc) as [| c t] eqn:Ed end.
  - cbn [String.length] in L. lia.
  - cbn [String.length Nat.eqb]. eexists. reflexivity.
Qed.

Lemma string_length_app (a b : string) :
  String.length (a ++ b) = (String.length a + String.length b)%nat.
Proof. induction a as [| c t IH]; cbn [append String.length]; [reflexivity | now rewrite IH]. Qed.

Lemma testHex6_out_of_range (n : Z) :
  (n < 0 \/ 255 < n)%Z -> testHex6 (printed n ++ printed n ++ printed n) = false.
Proof.
  intros [H | H]; unfold testHex6.
  - destruct (printed_negative n H) as [rest ->].
    cbn [append allHex]. replace (isHexDigit "-") with false by reflexivity.
    cbn [andb]. apply andb_false_r.
  - pose proof (printed_long n H) as L.
    rewrite !string_length_app.
    replace (String.length (printed n) + (String.length (printed n) + String.length (printed n)) =? 6)%nat
      with false; [reflexivity |].
    symmetry. apply Nat.eqb_neq. lia.
Qed.

Lemma canonical_hash_body (body : string) :
  canonicalHex (String "#" body) -> testHex6 body = true.
Proof.
  intro Hc. apply colorValue_canonical in Hc. destruct Hc as [[[r g] b] Hv].
  destruct (colorValue_cases _ _ Hv) as [[body' [E Hb]] | [Hs _]].
  - injection E as <-. apply bodyValue_channels in Hb. tauto.
  - discriminate Hs.
Qed.

(** X6. When the shade of a grey rounds to a channel below 0 or above
    255, the result is not a canonical colour, and adjusting it again
    returns it unchanged. *)
Theorem grey_out_of_range (hexColor : string) (shade : Q) (v : Z) :
  colorValue hexColor = Some (v, v, v) ->
  (Math_round (shade / 100 * 255) < 0 \/ 255 < Math_round (shade / 100 * 255))%Z ->
  ~ canonicalHex (adjustColorBrightness hexColor shade)
  /\ forall s2, adjustColorBrightness (adjustColorBrightness hexColor shade) s2
                = adjustColorBrightness hexColor shade.
Proof.
  intros Hv Hn. rewrite (adjust_grey hexColor shade v Hv).
  pose proof (testHex6_out_of_range _ Hn) as Ht.
  split.
  - intro Hc. apply canonical_hash_body in Hc. rewrite Ht in Hc. discriminate Hc.
  - intro s2. unfold adjustColorBrightness at 1.
    cbn [startsWith slice1]. rewrite Ascii.eqb_refl. rewrite Ht. reflexivity.
Qed.

Lemma grey_out_of_range_witness :
  ~ canonicalHex (adjustColorBrightness "#808080" 150)
  /\ adjustColorBrightness (adjustColorBrightness "#808080" (-20)) 50
     = adjustColorBrightness "#808080" (-20).
Proof.
  split.
  - apply (grey_out_of_range "#808080" 150 128); [reflexivity | right; reflexivity].
  - apply (grey_out_of_range "#808080" (-20) 128); [reflexivity | left; reflexivity].
Defined.

(** For a valid colour and a shade from 0 to 100 the result is [#]
    followed by three channels printed as two digits. *)
Lemma adjust_in_range (hexColor : string) (shade : Q) (r g b : Z) :
  colorValue hexColor = Some (r, g, b) -> 0 <= shade -> shade <= 100 ->
  exists r' g' b',
    (0 <= r' <= 255)%Z /\ (0 <= g' <= 255)%Z /\ (0 <= b' <= 255)%Z
    /\ adjustColorBrightness hexColor shade = String "#" (hex2 r' ++ hex2 g' ++ hex2 b').
Proof.
  intros Hv H0 H100.
  rewrite (adjust_valid hexColor shade r g b Hv).
  assert (Hrange : (0 <= r <= 255 /\ 0 <= g <= 255 /\ 0 <= b <= 255)%Z).
  { destruct (colorValue_cases hexColor (r, g, b) Hv) as [[body [_ Hb]] | [_ Hb]];
      apply bodyValue_range in Hb; exact Hb. }
  destruct Hrange as (Hr & Hg & Hb).
  apply channel_unit in Hr, Hg, Hb.
  set (R := inject_Z r / 255) in *. set (G := inject_Z g / 255) in *.
  set (B := inject_Z b / 255) in *.
  assert (Hl0 : 0 <= shade / 100) by (qconst; lra).
  assert (Hl1 : shade / 100 <= 1) by (qconst; lra).
  destruct (hueOf_range R G B) as [Hh0 Hh1].
  destruct (satOf_le_one R G B Hr Hg Hb) as [Hs0 Hs1].
  pose proof (hslToRgb_range (hueOf R G B) (satOf R G B) (shade / 100)
                Hh0 Hh1 Hs0 Hs1 Hl0 Hl1) as Hch.
  unfold newChannels. unfold hueOf, satOf in Hch.
  destruct (rgbToHsl R G B) as [[h s] l0]. cbn [fst snd] in Hch.
  destruct (hslToRgb h s (shade / 100)) as [[newR newG] newB].
  destruct Hch as ([R0 R1] & [G0 G1] & [B0 B1]).
  destruct (toHex_unit newR R0 R1) as (NR & -> & _).
  destruct (toHex_unit newG G0 G1) as (NG & -> & _).
  destruct (toHex_unit newB B0 B1) as (NB & -> & _).
  do 3 eexists. repeat split; try eassumption; lia.
Qed.

Lemma hex2_lower (n : Z) : (0 <= n <= 255)%Z -> all_in lowerDigits (hex2 n).
Proof.
  intro H. unfold hex2. cbn [all_in].
  assert (L : List.length lowerDigits = 16%nat) by reflexivity.
  split; [| split; [| exact I]]; apply nth_In; rewrite L.
  - assert (0 <= n / 16 < 16)%Z by (split; [apply Z.div_pos; lia | apply Z.div_lt_upper_bound; lia]). lia.
  - assert (0 <= n mod 16 < 16)%Z by (apply Z.mod_pos_bound; lia). lia.
Qed.

Lemma all_in_app (l : list ascii) (a b : string) :
  all_in l a -> all_in l b -> all_in l (a ++ b).
Proof.
  induction a as [| c t IH]; cbn [append all_in]; [tauto |].
  intros [Hc Ht] Hb. split; [exact Hc | apply IH; assumption].
Qed.

(** X4. For a valid colour and a shade from 0 to 100 the result is again
    a canonical colour: [#] followed by exactly six digits, all
    lowercase. *)
Theorem adjust_result_canonical (hexColor : string) (shade : Q) (v : Z * Z * Z) :
  colorValue hexColor = Some v -> 0 <= shade -> shade <= 100 ->
  canonicalHex (adjustColorBrightness hexColor shade)
  /\ exists body,
       adjustColorBrightness hexColor shade = String "#" body
       /\ String.length body = 6%nat /\ all_in lowerDigits body.
Proof.
  destruct v as [[r g] b]. intros Hv H0 H1.
  destruct (adjust_in_range hexColor shade r g b Hv H0 H1)
    as (r' & g' & b' & Hr & Hg & Hb & ->).
  split.
  - apply colorValue_canonical. eexists. apply colorValue_hex2; assumption.
  - eexists. split; [reflexivity |]. split; [reflexivity |].
    apply all_in_app; [apply hex2_lower; exact Hr |].
    apply all_in_app; apply hex2_lower; assumption.
Qed.

Lemma adjust_result_canonical_witness :
  canonicalHex (adjustColorBrightness "#FFD700" 70).
Proof.
  apply (adjust_result_canonical "#FFD700" 70 (255, 215, 0)%Z); [reflexivity | qcmp | qcmp].
Defined.

End ColorMore.

(* ================================================================== *)
(** ** Further properties of the builders *)

Module BuilderProps.

Import JS Color Three Furniture RoomShell Scene Spec SceneProps Extent.
Open Scope Q_scope.
Open Scope string_scope.

Lemma orNum_positive (o : option Q) (d : Q) : notNegative o -> 0 < d -> 0 < orNum o d.
Proof.
  intros Hn Hd. destruct o as [v |]; cbn [notNegative orNum] in *; [| exact Hd].
  destruct (Qeq_dec v 0) as [E | N]; [exact Hd |].
  destruct (Qlt_le_dec 0 v); [assumption | exfalso; apply N; lra].
Qed.

(** X7. Every builder places its group at [(x || 0, -roomHeight / 2, z
    || 0)] with scale [scale || 1], and when the scale is missing or not
    negative no part of the composition reaches below the floor height
    [-roomHeight / 2]. *)
Theorem parts_above_floor (item : Item) (rh : Q) :
  notNegative item.(Furniture.scale) ->
  forall tag build dflt parts, In (tag, build, dflt, parts) registry ->
    positionOf (build item rh) = (orNum item.(Furniture.x) 0, - rh / 2, orNum item.(Furniture.z) 0)
    /\ scaleOf (build item rh) = orNum item.(Furniture.scale) 1
    /\ forall m, In m (childrenOf (build item rh)) ->
         - rh / 2 <= worldLowest (build item rh) m.
Proof.
  intro Hs. pose proof (orNum_positive _ 1 Hs ltac:(reflexivity)) as Hpos.
  apply (registry_cases (fun _ build _ _ =>
    positionOf (build item rh) = (orNum item.(Furniture.x) 0, - rh / 2, orNum item.(Furniture.z) 0)
    /\ scaleOf (build item rh) = orNum item.(Furniture.scale) 1
    /\ forall m, In m (childrenOf (build item rh)) ->
         - rh / 2 <= worldLowest (build item rh) m));
    (split; [reflexivity | split; [reflexivity |]]); intros m Hm;
    unfold Chair, Table, Sofa, Bookshelf, TVStand, Bed, Lamp, part in *;
    set (s := orNum item.(Furniture.scale) 1) in *;
    cbn [childrenOf In] in Hm;
    repeat (destruct Hm as [<- | Hm]);
    try contradiction;
    cbn [worldLowest lowest halfHeight vy fst snd]; arith.
Qed.


Lemma parts_above_floor_witness :
  let item := mkItem "c1" "chair" (Some 2) (Some 3) (Some 0) None None in
  Forall (fun m => - 5 / 2 <= worldLowest (Chair item 5) m) (childrenOf (Chair item 5)).
Proof.
  intro item.
  assert (Hs : notNegative item.(Furniture.scale)) by (cbn; qcmp).
  apply Forall_forall.
  exact (proj2 (proj2 (parts_above_floor item 5 Hs "chair" Chair 50 _ ltac:(listed)))).
Defined.

(** X8. The lowest part of a chair, table, bookshelf, bed and lamp
    touches the origin of its group, that is the floor; the sofa stays
    0.25 and the TV stand 0.1 above it (before scaling). *)
Theorem floor_clearance (item : Item) (rh : Q) :
  forall tag build dflt parts, In (tag, build, dflt, parts) registry ->
  forall c, In (tag, c) floorClearance -> clearance (build item rh) == c.
Proof.
  apply (registry_cases (fun tag build _ _ =>
    forall c, In (tag, c) floorClearance -> clearance (build item rh) == c));
    intros c Hin; unfold floorClearance in Hin; cbn [In] in Hin;
    repeat (destruct Hin as [Hin | Hin];
            [first [discriminate Hin | injection Hin as <-; lazy; reflexivity] |]);
    contradiction.
Qed.

Lemma floor_clearance_witness :
  clearance (Sofa (mkItem "s" "sofa" None None None None None) 5) == 0.25.
Proof.
  apply (floor_clearance (mkItem "s" "sofa" None None None None None) 5
           "sofa" Sofa 30 [prism; prism; prism; prism] ltac:(listed)).
  unfold floorClearance. cbn [In]. tauto.
Defined.

(** X9. The colour and the shade of a descriptor change no position,
    rotation, geometry or scale of a composition. *)
Theorem colour_leaves_shape (item : Item) (rh : Q) (c : option string) (s : option Q) :
  forall tag build dflt parts, In (tag, build, dflt, parts) registry ->
    shapeOf (build (withColor (withShade item s) c) rh) = shapeOf (build item rh).
Proof.
  apply (registry_cases (fun _ build _ _ =>
    shapeOf (build (withColor (withShade item s) c) rh) = shapeOf (build item rh)));
    reflexivity.
Qed.

Lemma colour_leaves_shape_witness :
  let item := mkItem "b" "bed" (Some 1) None None (Some "#4682B4") (Some 30) in
  shapeOf (Bed (withColor (withShade item (Some 90)) (Some "#ff0000")) 5)
  = shapeOf (Bed item 5).
Proof.
  intro item.
  exact (colour_leaves_shape item 5 (Some "#ff0000") (Some 90) "bed" Bed 30 _ ltac:(listed)).
Defined.

(** X10. Every part of a composition is coloured
    [adjustColorBrightness(color || default, shade || default)] with the
    defaults of its type, except an emissive part, which only the lamp
    has and which always has the fixed bulb material. *)
Theorem parts_material (item : Item) (rh : Q) :
  forall tag build dflt parts, In (tag, build, dflt, parts) registry ->
  forall dc, In (tag, dc) defaultColor ->
  forall m mat, In m (childrenOf (build item rh)) -> materialOf m = Some mat ->
    (mat.(emissive) = None ->
       mat.(Three.color)
       = adjustColorBrightness (orStr item.(Furniture.color) dc)
                               (orNum item.(Furniture.shade) dflt))
    /\ (mat.(emissive) <> None -> mat = bulbMaterial /\ tag = "lamp").
Proof.
  apply (registry_cases (fun tag build dflt _ =>
    forall dc, In (tag, dc) defaultColor ->
    forall m mat, In m (childrenOf (build item rh)) -> materialOf m = Some mat ->
      (mat.(emissive) = None ->
         mat.(Three.color)
         = adjustColorBrightness (orStr item.(Furniture.color) dc)
                                 (orNum item.(Furniture.shade) dflt))
      /\ (mat.(emissive) <> None -> mat = bulbMaterial /\ tag = "lamp")));
    intros dc Hdc m mat Hm Hmat;
    unfold defaultColor in Hdc; cbn [In] in Hdc;
    repeat (destruct Hdc as [Hdc | Hdc];
            [first [discriminate Hdc | injection Hdc as <-] |]);
    try contradiction;
    unfold Chair, Table, Sofa, Bookshelf, TVStand, Bed, Lamp, part, textured in Hm;
    cbn [childrenOf In] in Hm;
    repeat (destruct Hm as [<- | Hm]);
    try contradiction;
    cbn [materialOf] in Hmat; injection Hmat as <-; cbn [emissive Three.color];
    (split; [intro E; first [reflexivity | discriminate E]
            | intro N; first [now contradiction N | split; reflexivity]]).
Qed.

Lemma parts_material_witness :
  let item := mkItem "l" "lamp" None None None None None in
  let m := nth 0 (childrenOf (Lamp item 5)) (Lamp item 5) in
  exists mat, materialOf m = Some mat
              /\ mat.(Three.color) = adjustColorBrightness "#FFD700" 70.
Proof.
  intros item m. eexists. split; [reflexivity |].
  assert (Hc : In ("lamp", "#FFD700") defaultColor) by (unfold defaultColor; cbn [In]; tauto).
  refine (proj1 (parts_material item 5 "lamp" Lamp 70 _ ltac:(listed) "#FFD700" Hc
                   m _ _ eq_refl) eq_refl).
  left. reflexivity.
Defined.

End BuilderProps.

(* ================================================================== *)
(** ** Further properties of the room shell *)

Module RoomProps.

Import JS Color Three Furniture RoomShell Spec SceneProps Extent.
Open Scope Q_scope.
Open Scope string_scope.

(** X11. When each dimension of the room is missing or not negative, the
    shell has six surfaces and each of them faces the centre of the
    room. *)
Theorem surfaces_face_inward (room : RoomSpec) :
  notNegative room.(width) -> notNegative room.(height) -> notNegative room.(depth) ->
  List.length (childrenOf (Room room)) = 6%nat
  /\ forall s, In s (childrenOf (Room room)) ->
       exists n, facingOf s = Some n /\ Scene.dot (positionOf s) n < 0.
Proof.
  intros Hw Hh Hd.
  pose proof (BuilderProps.orNum_positive _ 10 Hw ltac:(reflexivity)) as Pw.
  pose proof (BuilderProps.orNum_positive _ 5 Hh ltac:(reflexivity)) as Ph.
  pose proof (BuilderProps.orNum_positive _ 10 Hd ltac:(reflexivity)) as Pd.
  unfold Room. set (W := orNum room.(width) 10) in *.
  set (H := orNum room.(height) 5) in *. set (D := orNum room.(depth) 10) in *.
  split; [reflexivity |].
  intros s Hs. cbn [childrenOf In] in Hs.
  repeat (destruct Hs as [<- | Hs]); try contradiction;
    (eexists; split; [reflexivity |]);
    unfold Scene.dot, surface, positionOf, vx, vy, vz; cbn [fst snd]; qconst; lra.
Qed.


Lemma surfaces_face_inward_witness :
  Forall (fun s => exists n, facingOf s = Some n /\ Scene.dot (positionOf s) n < 0)
         (childrenOf (Room (mkRoom (Some 8) None (Some 0) None None))).
Proof.
  apply Forall_forall.
  apply (surfaces_face_inward (mkRoom (Some 8) None (Some 0) None None));
    cbn; try exact I; qcmp.
Defined.

(** X12. A width, height or depth equal to 0 gives the same shell as a
    missing one, that is the shell of the default 10, 5 and 10. *)
Theorem room_zero_dimension (room : RoomSpec) (v : Q) :
  v == 0 ->
  Room (withWidth room (Some v)) = Room (withWidth room None)
  /\ Room (withWidth room (Some v)) = Room (withWidth room (Some 10))
  /\ Room (withHeight room (Some v)) = Room (withHeight room None)
  /\ Room (withHeight room (Some v)) = Room (withHeight room (Some 5))
  /\ Room (withDepth room (Some v)) = Room (withDepth room None)
  /\ Room (withDepth room (Some v)) = Room (withDepth room (Some 10)).
Proof.
  intro Hv. unfold Room, withWidth, withHeight, withDepth.
  cbn [width height depth RoomShell.color wallTexture].
  rewrite !(orNum_zero v _ Hv), !orNum_default. repeat split; reflexivity.
Qed.

Lemma room_zero_dimension_witness :
  let room := mkRoom (Some 8) (Some 3) (Some 6) None None in
  Room (withHeight room (Some 0)) = Room (withHeight room (Some 5)).
Proof.
  intro room. assert (H0 : 0 == 0) by reflexivity.
  exact (proj1 (proj2 (proj2 (proj2 (room_zero_dimension room 0 H0))))).
Defined.

(** X13. [Scene] gives the builders [room.height] as it is while [Room]
    uses [room.height || 5]: the furniture groups are at the height of
    the rendered floor exactly when the room has a height and it is not
    0.  For the height 0 they are at 0, and for a room without height
    at NaN, with the floor at -5/2. *)
Theorem furniture_on_rendered_floor (room : RoomSpec) (item : Item) :
  let floor := vy (positionOf (nth 0 (childrenOf (Room room)) (Room room))) in
  (forall h tag build dflt parts,
     room.(height) = Some h -> In (tag, build, dflt, parts) registry ->
     groupY room = Some (vy (positionOf (build item h))))
  /\ ((exists y, groupY room = Some y /\ y == floor)
      <-> exists h, room.(height) = Some h /\ ~ h == 0)
  /\ (room.(height) = None -> groupY room = None /\ floor == - (5 / 2)).
Proof.
  intro floor. split; [| split].
  - intros h tag build dflt parts Hh.
    apply (registry_cases (fun _ build _ _ =>
             groupY room = Some (vy (positionOf (build item h)))));
      unfold groupY; rewrite Hh; reflexivity.
  - subst floor. unfold groupY, Room.
    cbn [childrenOf nth surface positionOf vy fst snd].
    destruct room.(height) as [h |]; cbn [option_map orNum].
    + destruct (Qeq_dec h 0) as [E | N]; split.
      * intros (y & [= <-] & A). exfalso. rewrite E in A. revert A. vm_compute. discriminate.
      * intros (h' & [= <-] & N). contradiction.
      * intros _. exists h. split; [reflexivity | exact N].
      * intros _. eexists. split; reflexivity.
    + split; [intros (y & A & _); discriminate A | intros (h & A & _); discriminate A].
  - intro Hh. subst floor. unfold groupY, Room. rewrite Hh.
    cbn [childrenOf nth surface positionOf vy fst snd option_map orNum].
    split; reflexivity.
Qed.

End RoomProps.

(* ================================================================== *)
(** ** Further properties of the mouse handlers *)

Module HandlerProps.

Import JS Color Three Furniture RoomShell Scene Spec SceneProps PointerProps Extent.
Open Scope Q_scope.
Open Scope string_scope.

(** X14. A pointer-move makes at most one call; the call carries the
    selected index and the x and z of a point of the ray, at a parameter
    [t >= 0], whose height is [+roomHeight / 2]. *)
Theorem move_reports_plane_point (H : Q) (sel : option nat) (ray : Ray) (u : Update) :
  In u (handleMouseMove H sel ray) ->
  handleMouseMove H sel ray = [u]
  /\ sel = Some u.(index)
  /\ exists t, 0 <= t
       /\ u.(Scene.x) == vx ray.(origin) + vx ray.(direction) * t
       /\ u.(Scene.z) == vz ray.(origin) + vz ray.(direction) * t
       /\ vy ray.(origin) + vy ray.(direction) * t == H / 2.
Proof. apply handleMouseMove_reports. Qed.

Lemma move_reports_plane_point_witness :
  let ray := mkRay (2, 10, 3) (0, -1, 0) in
  let u := nth 0 (handleMouseMove 5 (Some 1%nat) ray) (mkUpdate 0 0 0) in
  handleMouseMove 5 (Some 1%nat) ray = [u] /\ Some 1%nat = Some u.(index).
Proof.
  intros ray u.
  assert (Hin : In u (handleMouseMove 5 (Some 1%nat) ray)) by (left; reflexivity).
  destruct (move_reports_plane_point 5 (Some 1%nat) ray u Hin) as (A & B & _).
  split; assumption.
Defined.

(** X15. With a selection, a pointer-move makes a call exactly when the
    ray is not horizontal and reaches the height [roomHeight / 2] at a
    parameter [t >= 0], or is horizontal and starts at that height. *)
Theorem move_calls_iff (H : Q) (i : nat) (ray : Ray) :
  handleMouseMove H (Some i) ray <> []
  <-> (~ vy ray.(direction) == 0
       /\ 0 <= (H / 2 - vy ray.(origin)) / vy ray.(direction))
      \/ (vy ray.(direction) == 0 /\ vy ray.(origin) == H / 2).
Proof.
  destruct ray as [[[ox oy] oz] [[dx dy] dz]].
  unfold handleMouseMove, intersectPlane, distanceToPlane, distanceToPoint, plane,
    dot, normal, constant, origin, direction, vx, vy, vz.
  cbn [fst snd].
  destruct (Qeq_dec (0 * dx + 1 * dy + 0 * dz) 0) as [Hpar | Hnp].
  - assert (Hdy : dy == 0) by lra.
    destruct (Qeq_dec (0 * ox + 1 * oy + 0 * oz + - H / 2) 0) as [Hon | Hoff].
    + split; [intros _; right; split; [exact Hdy | qconst; lra] | intros _; discriminate].
    + split; [intro A; now contradiction A |].
      intros [[N _] | [_ E]]; [contradiction | exfalso; apply Hoff; qconst; lra].
  - assert (Hdy : ~ dy == 0) by (intro E; apply Hnp; lra).
    assert (Ht : - (ox * 0 + oy * 1 + oz * 0 + - H / 2) / (0 * dx + 1 * dy + 0 * dz)
                 == (H / 2 - oy) / dy).
    { field. exact Hdy. }
    destruct (Qlt_le_dec (- (ox * 0 + oy * 1 + oz * 0 + - H / 2) / (0 * dx + 1 * dy + 0 * dz)) 0)
      as [Hneg | Hpos].
    + split; [intro A; now contradiction A |].
      intros [[_ P] | [E _]]; [rewrite Ht in Hneg; exfalso; lra | contradiction].
    + split; [intros _; left; split; [exact Hdy | rewrite <- Ht; exact Hpos]
             | intros _; discriminate].
Qed.


Lemma move_calls_iff_witness :
  handleMouseMove 5 (Some 1%nat) (mkRay (0, 10, 0) (3 / 5, - (4 / 5), 0)) <> []
  /\ handleMouseMove 5 (Some 1%nat) (mkRay (2, 5 / 2, 3) (1, 0, 0)) <> [].
Proof.
  split.
  - apply (move_calls_iff 5 1 (mkRay (0, 10, 0) (3 / 5, - (4 / 5), 0))).
    left. split; [discriminate | qcmp].
  - apply (move_calls_iff 5 1 (mkRay (2, 5 / 2, 3) (1, 0, 0))).
    right. split; reflexivity.
Defined.

Lemma findIndex_none_iff {A : Type} (pred : A -> bool) (l : list A) :
  findIndex pred l = None <-> forall a, In a l -> pred a = false.
Proof.
  induction l as [| c t IH]; cbn [findIndex In]; [tauto |].
  destruct (pred c) eqn:Hc.
  - split; [discriminate |]. intro H. rewrite (H c (or_introl eq_refl)) in Hc. discriminate.
  - destruct (findIndex pred t) as [k |]; cbn [option_map].
    + split; [discriminate |]. intro H.
      assert (E : @None nat = None) by reflexivity.
      destruct IH as [_ IH2]. specialize (IH2 (fun a Ha => H a (or_intror Ha))). discriminate.
    + split; [| reflexivity]. intros _ a [<- | Ha]; [exact Hc | now apply IH].
Qed.

Lemma strictEq_true (a : string) (v : option string) : strictEq a v = true <-> v = Some a.
Proof.
  destruct v as [b |]; cbn [strictEq]; [| split; discriminate].
  rewrite String.eqb_eq. split; [now intros -> | now intros [= ->]].
Qed.

(** X17. When the id read from the parent of the nearest hit is the id
    of no descriptor, the pointer-down leaves the selection as it was;
    only a pointer-down without any intersection clears it. *)
Theorem mousedown_keeps_selection (furniture : list Item) (objects : list Object3D)
  (hit : Intersection) (others : list Intersection) (selected : option nat) :
  (forall item, In item furniture ->
     parent_userData_id objects hit.(object) <> Some item.(id)) ->
  handleMouseDown furniture objects (hit :: others) selected = selected
  /\ handleMouseDown furniture objects [] selected = None.
Proof.
  intro Hno. split; [| reflexivity]. unfold handleMouseDown.
  replace (findIndex _ furniture) with (@None nat); [reflexivity |].
  symmetry. apply findIndex_none_iff. intros item Hin.
  destruct (strictEq item.(id) (parent_userData_id objects hit.(object))) eqn:E;
    [| reflexivity].
  apply strictEq_true in E. exfalso. exact (Hno item Hin E).
Qed.

Lemma mousedown_keeps_selection_witness :
  let a := mkItem "a" "chair" None None None None None in
  let stray := group (Some "zz") (0, 0, 0) 1 [Chair a 5] in
  handleMouseDown [a] [stray] [mkIntersection 3 [0; 0]%nat] (Some 0%nat) = Some 0%nat.
Proof.
  intros a stray.
  apply (mousedown_keeps_selection [a] [stray] (mkIntersection 3 [0; 0]%nat) []
           (Some 0%nat)).
  intros item [<- | []]. discriminate.
Defined.

(** X19. Starting without a selection, no sequence of pointer events
    whose hits are meshes of the rendered furniture selects anything or
    calls [onUpdateFurniture]. *)
Theorem rendered_furniture_never_dragged (rh : Q) (furniture : list Item)
  (events : list Event) :
  Forall (wellFormed (furnitureGroups rh furniture)) events ->
  run rh furniture (furnitureGroups rh furniture) None events = (None, []).
Proof. apply run_never_drags. Qed.

Lemma rendered_furniture_never_dragged_witness :
  let a := mkItem "a" "chair" None None None None None in
  run 5 [a] (furnitureGroups 5 [a]) None
    [mousedown [mkIntersection 3 [0; 0; 1]%nat]; mousemove (mkRay (2, 10, 3) (0, -1, 0));
     mouseup]
  = (None, []).
Proof.
  intro a. apply (rendered_furniture_never_dragged 5 [a]).
  repeat constructor. cbn [wellFormed]. eexists. split; reflexivity.
Defined.

Lemma run_moves (rh : Q) (furniture : list Item) (objects : list Object3D)
  (selected : option nat) (rays : list Ray) :
  exists calls,
    run rh furniture objects selected (List.map mousemove rays) = (selected, calls)
    /\ Forall (fun u => selected = Some u.(index)) calls
    /\ (List.length calls <= List.length rays)%nat.
Proof.
  induction rays as [| ray rest IH]; cbn [List.map run step].
  - exists []. repeat split; [constructor | cbn; lia].
  - destruct IH as (calls & -> & Hall & Hlen).
    exists (handleMouseMove rh selected ray ++ calls)%list. split; [reflexivity |].
    destruct (handleMouseMove rh selected ray) as [| u l] eqn:E.
    + cbn [app List.length]. split; [exact Hall | lia].
    + destruct (handleMouseMove_reports rh selected ray u) as (E1 & Hsel & _);
        [rewrite E; left; reflexivity |].
      rewrite E in E1. injection E1 as ->. cbn [app List.length].
      split; [constructor; [exact Hsel | exact Hall] | lia].
Qed.

(** X20. A run of pointer-moves keeps the selection, makes at most one
    call per move and every call carries the selected index; after a
    pointer-up the moves make no call. *)
Theorem moves_report_the_selection (rh : Q) (furniture : list Item)
  (objects : list Object3D) (selected : option nat) (rays : list Ray) :
  (exists calls,
     run rh furniture objects selected (List.map mousemove rays) = (selected, calls)
     /\ Forall (fun u => selected = Some u.(index)) calls
     /\ (List.length calls <= List.length rays)%nat)
  /\ run rh furniture objects selected (mouseup :: List.map mousemove rays) = (None, []).
Proof.
  split; [apply run_moves |].
  cbn [run step]. unfold handleMouseUp.
  destruct (run_moves rh furniture objects None rays) as (calls & -> & Hall & _).
  destruct calls as [| u l]; [reflexivity |].
  inversion Hall as [| ? ? Hu _]. discriminate Hu.
Qed.

End HandlerProps.

(* ================================================================== *)
(** ** Further properties of the view mode *)

Module ViewProps.

Import JS Three Scene Spec Render.
Open Scope Q_scope.
Open Scope string_scope.

(** X21. After the view-mode effect the switches of the controls agree
    with the attributes the render gives [OrbitControls] exactly when
    [viewMode] is [2D] or [3D]; for any other value the effect enables
    rotation and the attribute disables it. *)
Theorem effect_agrees_with_attributes {Orbit : Type}
    (update : Orbit -> Camera -> Orbit * Camera) (o : Orbit)
    (viewMode : string) (v : View) (c : Controls) :
  v.(controls) = Some c ->
  exists c',
    (fst (viewModeEffect update viewMode v o)).(controls) = Some c'
    /\ c'.(enableZoom) = (orbitControls viewMode).(enableZoom)
    /\ c'.(enablePan) = (orbitControls viewMode).(enablePan)
    /\ (c'.(enableRotate) = (orbitControls viewMode).(enableRotate)
        <-> viewMode = "2D" \/ viewMode = "3D").
Proof.
  intro Hc. unfold viewModeEffect, orbitControls. rewrite Hc.
  destruct (viewMode =? "2D") eqn:E2;
    cbv zeta; destruct (update o _) as [o' cam']; cbn [fst controls];
    eexists; (split; [reflexivity |]); cbn [enableZoom enablePan enableRotate];
    (split; [reflexivity | split; [reflexivity |]]).
  - apply String.eqb_eq in E2. subst viewMode. cbn. split; [intros _; now left | reflexivity].
  - destruct (viewMode =? "3D") eqn:E3.
    + apply String.eqb_eq in E3. split; [intros _; now right | reflexivity].
    + apply String.eqb_neq in E2, E3. split; [discriminate | intros [A | A]; contradiction].
Qed.

Lemma effect_agrees_with_attributes_witness :
  let v := mkView (mkCamera (0, 10, 0) (0, 0, 0)) (Some (mkControls false true true)) in
  exists c', (fst (viewModeEffect (fun (o : unit) cam => (o, cam)) "free" v tt)).(controls)
             = Some c'
             /\ c'.(enableRotate) <> (orbitControls "free").(enableRotate).
Proof.
  intro v.
  destruct (effect_agrees_with_attributes (fun (o : unit) cam => (o, cam)) tt "free" v
              (mkControls false true true) eq_refl)
    as (c' & Hc & _ & _ & Hiff).
  exists c'. split; [exact Hc |].
  intro E. apply Hiff in E. destruct E as [E | E]; discriminate E.
Defined.

End ViewProps.

(* ================================================================== *)
(** ** The matcher is correct *)

Module RegexProps.

Import Regex.
Local Open Scope nat_scope.

Lemma Matches_cat (a b : Rx) (w : JSString) :
  Matches (Cat a b) w <-> exists s t, w = s ++ t /\ Matches a s /\ Matches b t.
Proof.
  split.
  - intro H. inversion H; subst. eexists. eexists. repeat split; eassumption.
  - intros (s & t & -> & Ha & Hb). now constructor.
Qed.

Lemma Matches_nil_cat (a b : Rx) : Matches (Cat a b) [] -> Matches a [] /\ Matches b [].
Proof.
  intro H. apply Matches_cat in H. destruct H as (s & t & E & Ha & Hb).
  symmetry in E. apply app_eq_nil in E. destruct E as [-> ->]. split; assumption.
Qed.

Lemma nullable_spec (r : Rx) : nullable r = true <-> Matches r [].
Proof.
  induction r as [| | p | a IHa b IHb | a IHa b IHb | a IHa]; cbn [nullable].
  - split; [discriminate | intro H; inversion H].
  - split; [intros _; constructor | reflexivity].
  - split; [discriminate | intro H; inversion H].
  - rewrite andb_true_iff, IHa, IHb. split.
    + intros [Ha Hb]. apply (MCat a b [] [] Ha Hb).
    + apply Matches_nil_cat.
  - rewrite orb_true_iff, IHa, IHb. split.
    + intros [H | H]; [now apply MAltL | now apply MAltR].
    + intro H. inversion H; subst; tauto.
  - split; [intros _; constructor | reflexivity].
Qed.

(** A non-empty match of a star starts with a non-empty match of its body. *)
Lemma Matches_star_cons (a : Rx) (w : JSString) :
  Matches (Star a) w -> forall c s, w = c :: s ->
  exists s1 s2, s = s1 ++ s2 /\ Matches a (c :: s1) /\ Matches (Star a) s2.
Proof.
  intro H. remember (Star a) as r eqn:Er.
  induction H as [| | | | | a' | a' s t Hs _ Ht IHt]; try discriminate Er.
  - intros c s E. discriminate E.
  - injection Er as ->. intros c w E.
    destruct s as [| c' s'].
    + cbn [app] in E. apply (IHt eq_refl c w E).
    + cbn [app] in E. injection E as -> <-. exists s', t. repeat split; assumption.
Qed.

Lemma deriv_spec (r : Rx) (c : N) (s : JSString) :
  Matches (deriv c r) s <-> Matches r (c :: s).
Proof.
  revert s. induction r as [| | p | a IHa b IHb | a IHa b IHb | a IHa]; intro s;
    cbn [deriv].
  - split; intro H; inversion H.
  - split; intro H; inversion H.
  - destruct (p c) eqn:Hp.
    + split; intro H.
      * inversion H; subst. now constructor.
      * inversion H; subst. constructor.
    + split; intro H; [inversion H |]. inversion H; subst. congruence.
  - assert (Hcat : Matches (Cat (deriv c a) b) s ->  Matches (Cat a b) (c :: s)).
    { intro H. apply Matches_cat in H. destruct H as (s1 & s2 & -> & H1 & H2).
      apply IHa in H1. apply (MCat a b (c :: s1) s2 H1 H2). }
    assert (Hinv : Matches (Cat a b) (c :: s) ->
                   Matches (Cat (deriv c a) b) s
                   \/ (Matches a [] /\ Matches b (c :: s))).
    { intro H. apply Matches_cat in H. destruct H as (s1 & s2 & E & H1 & H2).
      symmetry in E. destruct s1 as [| c1 s1].
      - cbn [app] in E. subst s2. right. split; assumption.
      - cbn [app] in E. injection E as -> <-. left.
        apply (MCat (deriv c a) b s1 s2); [apply IHa; exact H1 | exact H2]. }
    destruct (nullable a) eqn:Hn.
    + split; intro H.
      * inversion H; subst; [now apply Hcat |].
        apply nullable_spec in Hn. apply (MCat a b [] (c :: s) Hn). now apply IHb.
      * destruct (Hinv H) as [H1 | [_ H2]]; [now apply MAltL |].
        apply MAltR. now apply IHb.
    + split; [exact Hcat |]. intro H.
      destruct (Hinv H) as [H1 | [H1 _]]; [exact H1 |].
      apply nullable_spec in H1. congruence.
  - split; intro H.
    + inversion H; subst; [apply MAltL; now apply IHa | apply MAltR; now apply IHb].
    + inversion H; subst; [apply MAltL; now apply IHa | apply MAltR; now apply IHb].
  - split; intro H.
    + apply Matches_cat in H. destruct H as (s1 & s2 & -> & H1 & H2).
      apply IHa in H1. apply (MStarApp a (c :: s1) s2 H1 H2).
    + destruct (Matches_star_cons a (c :: s) H c s eq_refl) as (s1 & s2 & -> & H1 & H2).
      apply (MCat (deriv c a) (Star a) s1 s2); [apply IHa; exact H1 | exact H2].
Qed.

Lemma matchesAtStart_spec (r : Rx) (s : JSString) :
  matchesAtStart r s = true <-> exists m rest, s = m ++ rest /\ Matches r m.
Proof.
  revert r. induction s as [| c t IH]; intro r; cbn [matchesAtStart].
  - rewrite orb_false_r, nullable_spec. split.
    + intro H. exists [], []. split; [reflexivity | exact H].
    + intros (m & rest & E & H). symmetry in E. apply app_eq_nil in E.
      destruct E as [-> _]. exact H.
  - rewrite orb_true_iff, nullable_spec, IH. split.
    + intros [H | (m & rest & -> & H)].
      * exists [], (c :: t). split; [reflexivity | exact H].
      * exists (c :: m), rest. split; [reflexivity | now apply deriv_spec].
    + intros (m & rest & E & H). destruct m as [| c' m].
      * left. exact H.
      * cbn [app] in E. injection E as <- ->. right.
        exists m, rest. split; [reflexivity | now apply deriv_spec].
Qed.

Lemma test_spec (r : Rx) (s : JSString) :
  test r s = true <-> exists before m after, s = before ++ m ++ after /\ Matches r m.
Proof.
  induction s as [| c t IH]; cbn [test].
  - rewrite orb_false_r, matchesAtStart_spec. split.
    + intros (m & rest & E & H). exists [], m, rest. split; [exact E | exact H].
    + intros (b & m & a & E & H). symmetry in E. apply app_eq_nil in E.
      destruct E as [-> E]. exists m, a. split; [now rewrite E | exact H].
  - rewrite orb_true_iff, matchesAtStart_spec, IH. split.
    + intros [(m & rest & E & H) | (b & m & a & -> & H)].
      * exists [], m, rest. split; [exact E | exact H].
      * exists (c :: b), m, a. split; [reflexivity | exact H].
    + intros (b & m & a & E & H). destruct b as [| c' b].
      * left. exists m, a. split; [exact E | exact H].
      * cbn [app] in E. injection E as <- ->. right.
        exists b, m, a. split; [reflexivity | exact H].
Qed.

Lemma Matches_class (p : N -> bool) (w : JSString) :
  Matches (Class p) w <-> exists c, w = [c] /\ p c = true.
Proof.
  split.
  - intro H. inversion H; subst. eexists. split; [reflexivity | assumption].
  - intros (c & -> & H). now constructor.
Qed.

Lemma Matches_star_class (p : N -> bool) (w : JSString) :
  Matches (Star (Class p)) w <-> Forall (fun c => p c = true) w.
Proof.
  split.
  - intro H. remember (Star (Class p)) as r eqn:Er.
    induction H as [| | | | | a' | a' s t Hs _ Ht IHt]; try discriminate Er.
    + constructor.
    + injection Er as ->. apply Matches_class in Hs. destruct Hs as (c & -> & Hc).
      cbn [app]. constructor; [exact Hc | now apply IHt].
  - induction 1 as [| c w Hc _ IH]; [constructor |].
    apply (MStarApp (Class p) [c] w); [now constructor | exact IH].
Qed.

Lemma Matches_plus_class (p : N -> bool) (w : JSString) :
  Matches (Plus (Class p)) w <-> w <> [] /\ Forall (fun c => p c = true) w.
Proof.
  unfold Plus. split.
  - intro H. apply Matches_cat in H. destruct H as (s & t & -> & H1 & H2).
    apply Matches_class in H1. destruct H1 as (c & -> & Hc).
    apply Matches_star_class in H2. cbn [app].
    split; [discriminate | constructor; assumption].
  - intros [Hne Hall]. destruct w as [| c w]; [contradiction |].
    inversion Hall; subst.
    apply (MCat (Class p) (Star (Class p)) [c] w);
      [now constructor | now apply Matches_star_class].
Qed.

End RegexProps.

(* ================================================================== *)
(** ** Properties of the sign-in form *)

Module LoginProps.

Import Regex Login RegexProps.
Local Open Scope nat_scope.
Local Open Scope string_scope.

Lemma solid_iff (w : JSString) : Matches (Plus (Class notWhiteSpace)) w <-> solid w.
Proof. apply Matches_plus_class. Qed.

Lemma Matches_unit (k : N) (w : JSString) : Matches (Class (N.eqb k)) w <-> w = [k].
Proof.
  rewrite Matches_class. split.
  - intros (c & -> & H). apply N.eqb_eq in H. now subst.
  - intros ->. exists k. split; [reflexivity | apply N.eqb_refl].
Qed.

Lemma emailRx_matches (w : JSString) :
  Matches emailRx w <->
  exists name domain tld,
    w = (name ++ [64%N] ++ domain ++ [46%N] ++ tld)%list
    /\ solid name /\ solid domain /\ solid tld.
Proof.
  unfold emailRx. split.
  - intro H.
    apply Matches_cat in H. destruct H as (name & r1 & -> & Hn & H).
    apply Matches_cat in H. destruct H as (at_ & r2 & -> & Ha & H).
    apply Matches_cat in H. destruct H as (domain & r3 & -> & Hd & H).
    apply Matches_cat in H. destruct H as (dot & tld & -> & Hdot & Ht).
    apply Matches_unit in Ha, Hdot. subst at_ dot.
    apply solid_iff in Hn, Hd, Ht.
    exists name, domain, tld. split; [reflexivity | auto].
  - intros (name & domain & tld & -> & Hn & Hd & Ht).
    apply solid_iff in Hn, Hd, Ht.
    repeat (apply MCat; try assumption); now apply Matches_unit.
Qed.

Lemma test_emailRx (s : JSString) : test emailRx s = true <-> emailShape s.
Proof.
  rewrite test_spec. unfold emailShape. split.
  - intros (before & m & after & -> & H). apply emailRx_matches in H.
    destruct H as (name & domain & tld & -> & Hn & Hd & Ht).
    exists before, name, domain, tld, after.
    split; [| auto].
    rewrite <- !app_assoc. reflexivity.
  - intros (before & name & domain & tld & after & -> & Hn & Hd & Ht).
    exists before, (name ++ [64%N] ++ domain ++ [46%N] ++ tld)%list, after.
    split; [rewrite <- !app_assoc; reflexivity |].
    apply emailRx_matches. exists name, domain, tld. split; [reflexivity | auto].
Qed.

(** X23. The test [/\S+@\S+\.\S+/.test(s)] holds exactly when [s]
    contains, anywhere, a non-empty run without white space, an [@], a
    second such run, a dot and a third such run. *)
Theorem email_test_shape (s : JSString) : test emailRx s = true <-> emailShape s.
Proof. apply test_emailRx. Qed.

Lemma dropWhile_nil (p : N -> bool) (s : JSString) :
  dropWhile p s = [] <-> forallb p s = true.
Proof.
  induction s as [| c t IH]; cbn [dropWhile forallb]; [tauto |].
  destruct (p c); cbn [andb]; [exact IH | split; discriminate].
Qed.

Lemma dropWhile_head (p : N -> bool) (s : JSString) (c : N) (t : JSString) :
  dropWhile p s = c :: t -> p c = false.
Proof.
  induction s as [| d u IH]; cbn [dropWhile]; [discriminate |].
  destruct (p d) eqn:Hd; [exact IH |]. intro E. injection E as <- _. exact Hd.
Qed.

Lemma trim_blank (s : JSString) :
  isEmpty (trim s) = true <-> forallb isWhiteSpace s = true.
Proof.
  unfold trim. rewrite <- dropWhile_nil.
  destruct (dropWhile isWhiteSpace s) as [| c t] eqn:E.
  - cbn. tauto.
  - split; [| discriminate]. intro H. exfalso.
    apply dropWhile_head in E.
    destruct (dropWhile isWhiteSpace (rev (c :: t))) as [| d u] eqn:E2.
    + apply dropWhile_nil in E2. rewrite forallb_forall in E2.
      specialize (E2 c). rewrite E2 in E; [discriminate |].
      apply in_rev. rewrite rev_involutive. now left.
    + cbn [rev] in H. destruct (rev u); discriminate H.
Qed.

Lemma shape_not_blank (s : JSString) :
  emailShape s -> forallb isWhiteSpace s = false.
Proof.
  intros (before & name & domain & tld & after & -> & [Hne Hall] & _).
  destruct name as [| c name]; [contradiction |].
  inversion Hall as [| ? ? Hc _]; subst.
  apply not_true_is_false. intro H. rewrite forallb_forall in H.
  specialize (H c). unfold notWhiteSpace in Hc. rewrite H in Hc; [discriminate |].
  apply in_or_app. right. now left.
Qed.

Lemma email_error_cases (st : State) :
  (newErrors st).(email_error) = None <-> emailShape st.(email).
Proof.
  unfold newErrors. cbn [email_error].
  destruct (isEmpty (trim st.(email))) eqn:Eb.
  - split; [discriminate |]. intro H. apply shape_not_blank in H.
    apply trim_blank in Eb. congruence.
  - destruct (test emailRx st.(email)) eqn:Et; cbn [negb].
    + split; [intros _; now apply test_emailRx | reflexivity].
    + split; [discriminate |]. intro H. apply test_emailRx in H. congruence.
Qed.

Lemma password_error_cases (st : State) :
  (newErrors st).(password_error) = None <-> (6 <= List.length st.(password))%nat.
Proof.
  unfold newErrors. cbn [password_error].
  destruct st.(password) as [| c t] eqn:E; cbn [isEmpty].
  - split; [discriminate | cbn; lia].
  - destruct (List.length (c :: t) <? 6)%nat eqn:El.
    + apply Nat.ltb_lt in El. split; [discriminate | lia].
    + apply Nat.ltb_ge in El. split; [intros _; exact El | reflexivity].
Qed.

Lemma validate_ok (st : State) :
  snd (validate st) = true
  <-> emailShape st.(email) /\ (6 <= List.length st.(password))%nat.
Proof.
  rewrite <- email_error_cases, <- password_error_cases.
  unfold validate. cbn [snd]. rewrite Nat.eqb_eq. unfold keyCount.
  assert (Ha : (newErrors st).(auth_error) = None) by reflexivity. rewrite Ha.
  destruct ((newErrors st).(email_error)), ((newErrors st).(password_error));
    cbn; split; try discriminate; try tauto; try lia.
  all: intros [A B]; discriminate.
Qed.

(** X24. [validate] returns true exactly when the e-mail has that shape
    and the password has at least six code units. *)
Theorem validate_accepts_iff (st : State) :
  snd (validate st) = true
  <-> emailShape st.(email) /\ (6 <= List.length st.(password))%nat.
Proof. apply validate_ok. Qed.

(** X25. An e-mail that is empty or made of white space only is reported
    as required; one that is neither blank nor of the shape is reported
    as invalid. *)
Theorem blank_email_is_required (st : State) :
  ((newErrors st).(email_error) = Some "Email is required"
   <-> forallb isWhiteSpace st.(email) = true)
  /\ ((newErrors st).(email_error) = Some "Email is invalid"
      <-> forallb isWhiteSpace st.(email) = false /\ ~ emailShape st.(email)).
Proof.
  unfold newErrors. cbn [email_error].
  destruct (isEmpty (trim st.(email))) eqn:Eb.
  - apply trim_blank in Eb. rewrite Eb. split; [tauto |].
    split; [discriminate | intros [A _]; discriminate].
  - assert (Hb : forallb isWhiteSpace st.(email) = false).
    { apply not_true_is_false. intro H. apply trim_blank in H. congruence. }
    rewrite Hb. destruct (test emailRx st.(email)) eqn:Et; cbn [negb].
    + split; [split; discriminate |].
      split; [discriminate |]. intros [_ N]. exfalso. apply N. now apply test_emailRx.
    + split; [split; discriminate |].
      split; [| reflexivity]. intros _. split; [reflexivity |].
      intro H. apply test_emailRx in H. congruence.
Qed.

Lemma test_unanchored (r : Rx) (before s after : JSString) :
  test r s = true -> test r (before ++ s ++ after)%list = true.
Proof.
  rewrite !test_spec. intros (b & m & a & -> & H).
  exists (before ++ b)%list, m, (a ++ after)%list. split; [| exact H].
  rewrite <- !app_assoc. reflexivity.
Qed.

(** X26. The test is not anchored: when [validate] accepts an e-mail, it
    accepts it with any text before and after it, white space included. *)
Theorem validate_accepts_embedded (st : State) (before after : JSString) :
  snd (validate st) = true ->
  snd (validate (setEmail st (before ++ st.(email) ++ after)%list)) = true.
Proof.
  intro H. apply validate_ok in H. destruct H as [He Hp].
  apply validate_ok. cbn [setEmail email password]. split; [| exact Hp].
  apply test_emailRx. apply test_unanchored. now apply test_emailRx.
Qed.

Lemma solid_length (w : JSString) : solid w -> (1 <= List.length w)%nat.
Proof. intros [Hne _]. destruct w; [contradiction | cbn; lia]. Qed.

(** X27. An e-mail that passes the test has at least five code units and
    contains an [@] and a dot. *)
Theorem accepted_email_facts (s : JSString) :
  test emailRx s = true ->
  (5 <= List.length s)%nat /\ In 64%N s /\ In 46%N s.
Proof.
  intro H. apply test_emailRx in H.
  destruct H as (before & name & domain & tld & after & -> & Hn & Hd & Ht).
  apply solid_length in Hn, Hd, Ht.
  split; [| split].
  - rewrite !length_app. cbn [List.length]. lia.
  - rewrite !in_app_iff. cbn [In]. tauto.
  - rewrite !in_app_iff. cbn [In]. tauto.
Qed.

Lemma handleSubmit_cases (st : State) (outcome : SignIn) :
  (snd (validate st) = false
   /\ handleSubmit st outcome = (fst (validate st), [preventDefault]))
  \/ (snd (validate st) = true
      /\ exists st', handleSubmit st outcome
           = (st', preventDefault :: signInWithEmailAndPassword st.(email) st.(password)
                   :: match outcome with
                      | resolves => [navigate "/dashboard"]
                      | rejects _ => []
                      end)
         /\ st'.(isLoading) = match outcome with resolves => true | rejects _ => false end
         /\ st'.(errors) = match outcome with
                           | resolves => mkErrors None None None
                           | rejects message => mkErrors None None (Some message)
                           end).
Proof.
  unfold handleSubmit.
  pose proof (validate_ok st) as Hok.
  pose proof (email_error_cases st) as He.
  pose proof (password_error_cases st) as Hp.
  unfold validate in *. cbn [fst snd] in *.
  destruct (Nat.eqb (keyCount (newErrors st)) 0) eqn:E; cbn [negb].
  - right. split; [reflexivity |].
    destruct Hok as [Hok _]. destruct (Hok eq_refl) as [A B].
    apply He in A. apply Hp in B.
    assert (En : newErrors st = mkErrors None None None).
    { destruct (newErrors st) as [e p a] eqn:En. cbn in A, B.
      assert (Ha : a = None).
      { change a with (auth_error (mkErrors e p a)). rewrite <- En. reflexivity. }
      now subst. }
    destruct outcome; eexists; (split; [reflexivity |]); cbn; rewrite ?En; split; reflexivity.
  - left. split; reflexivity.
Qed.

(** X28. [handleSubmit] calls the sign-in only with the e-mail and
    password of the form, and only when the e-mail has the shape and the
    password has at least six code units. *)
Theorem sign_in_only_when_valid (st : State) (outcome : SignIn) (e p : JSString) :
  In (signInWithEmailAndPassword e p) (snd (handleSubmit st outcome)) ->
  e = st.(email) /\ p = st.(password)
  /\ emailShape e /\ (6 <= List.length p)%nat.
Proof.
  intro Hin.
  destruct (handleSubmit_cases st outcome) as [[_ E] | [Hv (st' & E & _)]];
    rewrite E in Hin; cbn [snd In] in Hin.
  - destruct Hin as [H | []]. discriminate H.
  - apply validate_ok in Hv.
    destruct Hin as [H | [H | H]]; [discriminate H | |].
    + injection H as <- <-. tauto.
    + destruct outcome; cbn [In] in H; [destruct H as [H | []]; discriminate H | contradiction].
Qed.

(** X29. [handleSubmit] navigates to the dashboard exactly when the form
    is valid and the sign-in resolves; it leaves [isLoading] set exactly
    then (or when it was set and the form is invalid); and it stores an
    authentication message exactly when the form is valid and the
    sign-in rejects with it. *)
Theorem submit_outcomes (st : State) (outcome : SignIn) :
  let valid := emailShape st.(email) /\ (6 <= List.length st.(password))%nat in
  let st' := fst (handleSubmit st outcome) in
  let effects := snd (handleSubmit st outcome) in
  (In (navigate "/dashboard") effects <-> valid /\ outcome = resolves)
  /\ (st'.(isLoading) = true
      <-> (valid /\ outcome = resolves) \/ (~ valid /\ st.(isLoading) = true))
  /\ (forall message,
        st'.(errors).(auth_error) = Some message <-> valid /\ outcome = rejects message).
Proof.
  intros valid st' effects. subst valid st' effects.
  pose proof (validate_ok st) as Hok.
  destruct (handleSubmit_cases st outcome) as [[Hv E] | [Hv (st' & E & Hl & He)]];
    rewrite E; cbn [fst snd].
  - assert (Hn : ~ (emailShape st.(email) /\ (6 <= List.length st.(password))%nat))
      by (intro A; apply Hok in A; congruence).
    split; [| split].
    + cbn [In]. split; [intros [A | []]; discriminate A | intros [A _]; contradiction].
    + unfold validate. cbn [fst isLoading]. tauto.
    + intro message. unfold validate. cbn [fst errors auth_error newErrors].
      split; [discriminate | intros [A _]; contradiction].
  - apply Hok in Hv. rewrite Hl, He.
    split; [| split].
    + destruct outcome; cbn [In].
      * split; [tauto | intros _; right; right; now left].
      * split; [intros [A | [A | []]]; discriminate A | intros [_ A]; discriminate A].
    + destruct outcome; split; try tauto; try discriminate.
      intros [[_ A] | [A _]]; [discriminate A | contradiction].
    + intro message. destruct outcome as [| m]; cbn [auth_error].
      * split; [discriminate | intros [_ A]; discriminate A].
      * split; [intros [= ->]; tauto | intros [_ [= ->]]; reflexivity].
Qed.

Lemma sign_in_only_when_valid_witness :
  let st := mkState [97; 64; 98; 46; 99]%N [49; 50; 51; 52; 53; 54]%N false
                    (mkErrors None None None) false in
  emailShape st.(email) /\ (6 <= List.length st.(password))%nat.
Proof.
  intro st.
  assert (Hin : In (signInWithEmailAndPassword st.(email) st.(password))
                   (snd (handleSubmit st resolves))) by (right; left; reflexivity).
  destruct (sign_in_only_when_valid st resolves _ _ Hin) as (_ & _ & A & B).
  split; assumption.
Defined.

Lemma validate_accepts_embedded_witness :
  let st := mkState [97; 64; 98; 46; 99]%N [49; 50; 51; 52; 53; 54]%N false
                    (mkErrors None None None) false in
  snd (validate (setEmail st ([32; 120; 32] ++ st.(email) ++ [32; 121])%N%list)) = true.
Proof.
  intro st. apply (validate_accepts_embedded st [32; 120; 32]%N [32; 121]%N).
  reflexivity.
Defined.

Lemma accepted_email_facts_witness :
  (5 <= List.length [97; 64; 98; 46; 99]%N)%nat.
Proof.
  apply (accepted_email_facts [97; 64; 98; 46; 99]%N). reflexivity.
Defined.

End LoginProps.
